(** * odooExternalApiConnector: a shallow embedding and its properties

    The connector of [odoo_external_api_connector.py] is a thin client over
    the XML-RPC interface of an Odoo server.  Every method performs a fixed
    pipeline (connect, authenticate, check access rights, invoke) and packs
    the outcome into a dictionary [{'error': ..., <key>: ...}].

    The embedding keeps the Python control flow: remote calls are requests
    answered by an arbitrary, stateful server; [try]/[except] is a handler
    on an exception-and-state monad; the attribute [self.uid] and the
    dictionaries the caller shares with [create_model] live in the state. *)

From Stdlib Require Import ZArith String Ascii List DecimalString Lia.
From stdpp Require Import base option list.
Import ListNotations.

Local Open Scope string_scope.

(** ** Python values *)

(** The values that travel through the connector and over the wire.
    Dictionaries keep insertion order, as in Python. *)
#[local] Set Warnings "-register-all".
Inductive pyval : Type :=
| PNone
| PBool (b : bool)
| PInt (z : Z)
| PStr (s : string)
| PList (l : list pyval)
| PDict (d : list (string * pyval)).

Definition dict : Type := list (string * pyval).

(** Python truthiness ([if v:], [if not v:]) *)
Definition truthy (v : pyval) : bool :=
  match v with
  | PNone => false
  | PBool b => b
  | PInt z => negb (Z.eqb z 0)
  | PStr s => negb (String.eqb s EmptyString)
  | PList l => match l with [] => false | _ => true end
  | PDict d => match d with [] => false | _ => true end
  end.

(** [v == []] and [v == {}] *)
Definition eq_empty_list (v : pyval) : bool :=
  match v with PList [] => true | _ => false end.

Definition eq_empty_dict (v : pyval) : bool :=
  match v with PDict [] => true | _ => false end.

(** truthiness of an optional string ([None] or [str]) *)
Definition str_truthy (o : option string) : bool :=
  match o with
  | Some s => negb (String.eqb s EmptyString)
  | None => false
  end.

(** ** Dictionaries *)

Fixpoint dict_get (k : string) (d : dict) : option pyval :=
  match d with
  | [] => None
  | (k', v) :: d' => if String.eqb k k' then Some v else dict_get k d'
  end.

(** [d[k] = v]: an existing key keeps its position, a new one goes last *)
Fixpoint dict_set (k : string) (v : pyval) (d : dict) : dict :=
  match d with
  | [] => [(k, v)]
  | (k', v') :: d' =>
      if String.eqb k k' then (k', v) :: d' else (k', v') :: dict_set k v d'
  end.

(** [d.update(e)] *)
Definition dict_update (d e : dict) : dict :=
  fold_left (fun acc kv => dict_set (fst kv) (snd kv) acc) e d.

(** ** Strings *)

(** Strings are sequences of ASCII characters; case conversion acts on the
    ASCII letters, which is what [str.lower] and [str.capitalize] do on
    such strings.  (The Python methods also convert letters outside
    ASCII, which are left as they are here: a property that depends on the
    conversion is stated for ASCII strings.) *)
Definition lower_ascii (c : ascii) : ascii :=
  let n := nat_of_ascii c in
  if (65 <=? n)%nat && (n <=? 90)%nat then ascii_of_nat (n + 32) else c.

Definition upper_ascii (c : ascii) : ascii :=
  let n := nat_of_ascii c in
  if (97 <=? n)%nat && (n <=? 122)%nat then ascii_of_nat (n - 32) else c.

Fixpoint str_map (f : ascii -> ascii) (s : string) : string :=
  match s with
  | EmptyString => EmptyString
  | String c s' => String (f c) (str_map f s')
  end.

(** [s.lower()] *)
Definition lower (s : string) : string := str_map lower_ascii s.

(** [s.capitalize()] *)
Definition capitalize (s : string) : string :=
  match s with
  | EmptyString => EmptyString
  | String c s' => String (upper_ascii c) (lower s')
  end.

(** [s.replace(a, b)] for one-character [a] and [b] *)
Definition replace_char (a b : ascii) (s : string) : string :=
  str_map (fun c => if Ascii.eqb c a then b else c) s.

(** [s.split(sep, 1)[0]]: the part of [s] before the first [sep] *)
Fixpoint split_head (sep : ascii) (s : string) : string :=
  match s with
  | EmptyString => EmptyString
  | String c s' => if Ascii.eqb c sep then EmptyString else String c (split_head sep s')
  end.

Definition newline : ascii := ascii_of_nat 10.

(** [re.match('^(x_).+', s)] is not [None]: [s] starts with [x_] and one
    more character follows that is not a line break ([.] does not match
    a newline). *)
Definition re_match_x (s : string) : bool :=
  match s with
  | String "x" (String "_" (String c _)) => negb (Ascii.eqb c newline)
  | _ => false
  end.

(** [s.startswith('x_')] *)
Definition x_prefixed (s : string) : bool :=
  match s with
  | String "x" (String "_" _) => true
  | _ => false
  end.

(** [str(i)] for a list index *)
Definition str_of_nat (n : nat) : string :=
  NilEmpty.string_of_uint (Nat.to_uint n).

(** the double quote, for the few Python messages that carry one *)
Definition dq : string := String (ascii_of_nat 34) EmptyString.

(** [type(v).__name__] *)
Definition type_name (v : pyval) : string :=
  match v with
  | PNone => "NoneType"
  | PBool _ => "bool"
  | PInt _ => "int"
  | PStr _ => "str"
  | PList _ => "list"
  | PDict _ => "dict"
  end.

(** [len(v)]; [None] where Python raises [TypeError] *)
Definition py_len (v : pyval) : option nat :=
  match v with
  | PStr s => Some (String.length s)
  | PList l => Some (length l)
  | PDict d => Some (length d)
  | _ => None
  end.

(** The elements [for x in v] runs through; [None] where Python raises
    [TypeError] (a string yields its characters, a dictionary its keys). *)
Definition py_iter (v : pyval) : option (list pyval) :=
  match v with
  | PStr s => Some (map (fun c => PStr (String c EmptyString)) (list_ascii_of_string s))
  | PList l => Some l
  | PDict d => Some (map (fun kv => PStr (fst kv)) d)
  | _ => None
  end.

(** ** The remote server *)

(** One XML-RPC call: the endpoint URL and the procedure with its
    parameters.  [Authenticate] also carries the constant fourth
    parameter [{}], left out here. *)
Inductive request : Type :=
| Version (url : string)
| ListDb (url : string)
| Authenticate (url : string) (db username password : pyval)
| ExecuteKw (url : string) (db uid password : pyval) (model method : string)
            (args : list pyval) (kwargs : option dict).

(** The answer: a value, or a fault (transport error, protocol error or a
    fault raised by the remote procedure) with its [repr]. *)
Inductive reply : Type :=
| Ok (v : pyval)
| Fault (repr : string).

Definition event : Type := request * reply.

(** ** State, exceptions and the monad of the connector *)

(** [server] answers a request from the calls it has seen so far: any
    deterministic server, stateful or not.  [trace] is the list of calls
    made, oldest first.  [uid] is the attribute [self.uid].  [store] holds
    the objects the caller shares with [create_model], by location. *)
Record world : Type := World {
  server : list event -> request -> reply;
  trace : list event;
  uid : pyval;
  store : list pyval
}.

(** A raised Python exception, by its [repr]. *)
Record exn : Type := Exn { repr : string }.

Inductive outcome (A : Type) : Type :=
| Ret (a : A)
| Raise (e : exn).
Arguments Ret {A} a.
Arguments Raise {A} e.

Definition M (A : Type) : Type := world -> outcome A * world.

Definition ret {A} (a : A) : M A := fun w => (Ret a, w).

Definition raise {A} (e : exn) : M A := fun w => (Raise e, w).

Definition bind {A B} (m : M A) (k : A -> M B) : M B :=
  fun w => match m w with
           | (Ret a, w') => k a w'
           | (Raise e, w') => (Raise e, w')
           end.

(** [try: m except: h] (every exception the connector meets derives from
    [Exception], so the bare [except:] and [except Exception] agree) *)
Definition try {A} (m : M A) (h : exn -> M A) : M A :=
  fun w => match m w with
           | (Ret a, w') => (Ret a, w')
           | (Raise e, w') => h e w'
           end.

Notation "'let!' x ':=' m 'in' k" := (bind m (fun x => k))
  (at level 10, x pattern, m at level 100, k at level 200).

(** the state once the call [r] was answered by [a] *)
Definition log (w : world) (r : request) (a : reply) : world :=
  World (server w) (trace w ++ [(r, a)]) (uid w) (store w).

(** what the caller of a remote procedure gets for an answer *)
Definition delivered (a : reply) : outcome pyval :=
  match a with
  | Ok v => Ret v
  | Fault f => Raise (Exn f)
  end.

(** a remote call: ask the server, log the call, raise on a fault *)
Definition rpc (r : request) : M pyval :=
  fun w => let a := server w (trace w) r in (delivered a, log w r a).

Definition get_uid : M pyval := fun w => (Ret (uid w), w).

Definition set_uid (u : pyval) : M unit :=
  fun w => (Ret tt, World (server w) (trace w) u (store w)).

(** the object at a location of the store (every location a Python list
    holds is live; outside the store the model reads [None]) *)
Definition load (l : nat) : M pyval :=
  fun w => (Ret (default PNone (store w !! l)), w).

Definition save (l : nat) (v : pyval) : M unit :=
  fun w => (Ret tt, World (server w) (trace w) (uid w) (<[l := v]> (store w))).

(** how a step inside a method ends: it leaves the loop or the method
    with a result ([break], [return]), or control goes on *)
Inductive ctl (B C : Type) : Type :=
| Break (b : B)
| Continue (c : C).
Arguments Break {B C} b.
Arguments Continue {B C} c.

(** ** The connector *)

(** The constructor parameters ([__init__] also sets [self.uid = None],
    which is the [uid] of the initial [world]). *)
Record connector : Type := Connector {
  url : option string;
  host : string;
  db : option string;
  username : pyval;
  password : pyval
}.

Definition init (url host db : option string) (username password : pyval) : connector :=
  Connector url
            (match host with
             | Some h => if str_truthy host then h else "localhost:8069"
             | None => "localhost:8069"
             end)
            db username password.

(** the messages of the source *)
Definition ConnectionError : string := "Can't connect to Odoo server.".
Definition AuthError : string := "Can't connect to the database using credentials provided.".
Definition NoDatabaseError : string := "No database exists on the server.".
Definition AccessDenied (right : string) : string :=
  "The model does not exist or you do not have a permission to '" ++ right ++ "' it.".
Definition InvalidCredentials : string := "Username/password are not valid.".
Definition ModelNameRequired : string := "Model name is required.".
Definition NoRecordsToUpdate : string := "No records to update.".
Definition NoRecordsToDelete : string := "No records to delete.".
Definition FieldsFormatError : string :=
  "Incorrect fields format. Should be a list of dictionaries.".
Definition ModelNotCreated : string := "The model was not created.".
Definition FormatError : string :=
  "Wrong format of a field attributes. Should be dictionary of key-value pairs.".

Section Methods.

Variable self : connector.

Definition _get_host : string :=
  match url self with
  | Some u => if str_truthy (url self) then u else host self
  | None => host self
  end.

(** The endpoints.  [xc.ServerProxy(url)] only takes the URL apart; a call
    through the proxy is the request on that URL.  (The proxies built
    outside a [try] are on the host whose [common] proxy was built
    before them.) *)
Definition common_url : string := _get_host ++ "/xmlrpc/2/common".
Definition db_url : string := _get_host ++ "/xmlrpc/db".
Definition object_url : string := _get_host ++ "/xmlrpc/2/object".

(** [{'error': ..., 'conn': ..., 'version': ...}]; the proxy [conn] is
    known by the URL it was opened on *)
Record connection : Type := Connection {
  conn_error : option string;
  conn : option string;
  version : pyval
}.

Definition _create_connection : M connection :=
  try (let! ver := rpc (Version common_url) in
       ret (Connection None (Some common_url) ver))
      (fun _ => ret (Connection (Some ConnectionError) None PNone)).

(** no [try] here: a fault of the listing call leaves the method *)
Definition _get_db_name : M pyval := rpc (ListDb db_url).

(** [{'error': ..., 'db': ...}] *)
Record auth_result : Type := AuthResult {
  auth_error : option string;
  auth_db : pyval
}.

(** [self.uid = conn.authenticate(db, self.username, self.password, {})]:
    the attribute is assigned only when the call returns *)
Definition login (conn : option string) (db : pyval) : M unit :=
  match conn with
  | Some common =>
      let! u := rpc (Authenticate common db (username self) (password self)) in
      set_uid u
  | None =>
      raise (Exn ("AttributeError(" ++ dq
                  ++ "'NoneType' object has no attribute 'authenticate'" ++ dq ++ ")"))
  end.

(** the loop [for db in dbs] of [_authenticate], on the variables
    [error] and [connected_db] *)
Fixpoint auth_loop (conn : option string) (dbs : list pyval)
         (error : option string) (connected_db : pyval)
  : M (option string * pyval) :=
  match dbs with
  | [] => ret (error, connected_db)
  | db :: rest =>
      let! turn := try (let! _ := login conn db in
                        ret (Break (None, db)))
                       (fun _ => ret (Continue (Some AuthError, connected_db))) in
      match turn with
      | Break st => ret st
      | Continue (error', connected_db') => auth_loop conn rest error' connected_db'
      end
  end.

(** the branch of [_authenticate] taken when [self.db] is not set *)
Definition auth_any_db (conn : option string) (error : option string)
           (connected_db : pyval) : M (option string * pyval) :=
  let! dbs := _get_db_name in
  if negb (eq_empty_list dbs) then
    match py_iter dbs with
    | Some items => auth_loop conn items error connected_db
    | None => raise (Exn ("TypeError(" ++ dq ++ "'" ++ type_name dbs
                          ++ "' object is not iterable" ++ dq ++ ")"))
    end
  else ret (Some NoDatabaseError, connected_db).

Definition _authenticate : M auth_result :=
  let connected_db := PNone in
  let! connection := _create_connection in
  let error := conn_error connection in
  let! (error, connected_db) :=
    match error with
    | None =>
        let conn := conn connection in
        match db self with
        | Some name =>
            if str_truthy (db self) then
              try (let! _ := login conn (PStr name) in
                   ret (error, PStr name))
                  (fun _ => ret (Some AuthError, connected_db))
            else auth_any_db conn error connected_db
        | None => auth_any_db conn error connected_db
        end
    | Some _ => ret (error, connected_db)
    end in
  if str_truthy error then ret (AuthResult error connected_db)
  else ret (AuthResult None connected_db).

(** [{'error': ..., 'model': ..., 'db': ...}]; the proxy [model] is known
    by the URL it was opened on *)
Record cursor : Type := Cursor {
  cur_error : option string;
  cur_model : option string;
  cur_db : pyval
}.

(** the loop [for access_right in access_scope] of [_check_model_access],
    on the variables [error] and [model]; the [except] branch has no
    [break] *)
Fixpoint access_loop (mod_ : string) (db : pyval) (model_name : string)
         (access_scope : list string) (error : option string) (model : option string)
  : M (option string * option string) :=
  match access_scope with
  | [] => ret (error, model)
  | access_right :: rest =>
      let! turn :=
        try (let! u := get_uid in
             let! perm_check :=
               rpc (ExecuteKw mod_ db u (password self) model_name
                              "check_access_rights" [PStr access_right]
                              (Some [("raise_exception", PBool false)])) in
             if negb (truthy perm_check)
             then ret (Break (Some (AccessDenied access_right), model))
             else ret (Continue (error, Some mod_)))
            (fun _ => ret (Continue (Some InvalidCredentials, model))) in
      match turn with
      | Break st => ret st
      | Continue (error', model') => access_loop mod_ db model_name rest error' model'
      end
  end.

Definition _check_model_access (model_name : string) (access_scope : list string)
  : M cursor :=
  let! auth := _authenticate in
  let! (error, model) :=
    match auth_error auth with
    | None => access_loop object_url (auth_db auth) model_name access_scope None None
    | Some e => ret (Some e, None)
    end in
  ret (Cursor error model (auth_db auth)).

(** [model.execute_kw(cursor[db], self.uid, self.password, ...)] *)
Definition execute_kw (model : option string) (db : pyval) (model_name method : string)
           (args : list pyval) (kwargs : option dict) : M pyval :=
  match model with
  | Some mod_ =>
      let! u := get_uid in
      rpc (ExecuteKw mod_ db u (password self) model_name method args kwargs)
  | None =>
      raise (Exn ("AttributeError(" ++ dq
                  ++ "'NoneType' object has no attribute 'execute_kw'" ++ dq ++ ")"))
  end.

(** ** The public methods *)

(** The returned dictionary [{'error': ..., <key>: ...}]. *)
Record envelope : Type := Envelope {
  error : option string;
  key : string;
  value : pyval
}.

Definition get_ids (model_name : option string) (filter offset limit : pyval)
  : M envelope :=
  match model_name with
  | Some name =>
      if str_truthy model_name then
        let! cursor := _check_model_access name ["read"] in
        if str_truthy (cur_error cursor)
        then ret (Envelope (cur_error cursor) "ids" PNone)
        else
          let model := cur_model cursor in
          try (let! ids := execute_kw model (cur_db cursor) name "search" [filter]
                             (Some [("offset", offset); ("limit", limit)]) in
               ret (Envelope None "ids" ids))
              (fun err => ret (Envelope (Some (repr err)) "ids" PNone))
      else ret (Envelope (Some ModelNameRequired) "ids" PNone)
  | None => ret (Envelope (Some ModelNameRequired) "ids" PNone)
  end.

Definition get_records (model_name : option string) (filter offset limit fields : pyval)
  : M envelope :=
  match model_name with
  | Some name =>
      if str_truthy model_name then
        let! cursor := _check_model_access name ["read"] in
        if str_truthy (cur_error cursor)
        then ret (Envelope (cur_error cursor) "records" PNone)
        else
          let model := cur_model cursor in
          let criteria :=
            if negb (eq_empty_list fields)
            then [("offset", offset); ("limit", limit); ("fields", fields)]
            else [("offset", offset); ("limit", limit)] in
          try (let! records := execute_kw model (cur_db cursor) name "search_read"
                                 [filter] (Some criteria) in
               ret (Envelope None "records" records))
              (fun err => ret (Envelope (Some (repr err)) "records" PNone))
      else ret (Envelope (Some ModelNameRequired) "records" PNone)
  | None => ret (Envelope (Some ModelNameRequired) "records" PNone)
  end.

Definition get_count (model_name : option string) (filter : pyval) : M envelope :=
  match model_name with
  | Some name =>
      if str_truthy model_name then
        let! cursor := _check_model_access name ["read"] in
        if str_truthy (cur_error cursor)
        then ret (Envelope (cur_error cursor) "count" PNone)
        else
          let model := cur_model cursor in
          try (let! records_count := execute_kw model (cur_db cursor) name
                                       "search_count" [filter] None in
               ret (Envelope None "count" records_count))
              (fun err => ret (Envelope (Some (repr err)) "count" PNone))
      else ret (Envelope (Some ModelNameRequired) "count" PNone)
  | None => ret (Envelope (Some ModelNameRequired) "count" PNone)
  end.

Definition get_fields (model_name : option string) (attributes : pyval) : M envelope :=
  match model_name with
  | Some name =>
      if str_truthy model_name then
        let! cursor := _check_model_access name ["read"] in
        if str_truthy (cur_error cursor)
        then ret (Envelope (cur_error cursor) "fields" PNone)
        else
          let model := cur_model cursor in
          try (let! fields := execute_kw model (cur_db cursor) name "fields_get" []
                                (Some [("attributes", attributes)]) in
               ret (Envelope None "fields" fields))
              (fun err => ret (Envelope (Some (repr err)) "fields" PNone))
      else ret (Envelope (Some ModelNameRequired) "fields" PNone)
  | None => ret (Envelope (Some ModelNameRequired) "fields" PNone)
  end.

Definition create_record (model_name : option string) (fields : pyval) : M envelope :=
  match model_name with
  | Some name =>
      if str_truthy model_name then
        let! cursor := _check_model_access name ["read"; "create"] in
        if str_truthy (cur_error cursor)
        then ret (Envelope (cur_error cursor) "id" PNone)
        else
          let model := cur_model cursor in
          let fields :=
            if eq_empty_list fields then
              let root := split_head "." name in
              let root := replace_char "." "_" root in
              PList [PDict [("name", PStr ("New " ++ capitalize root))]]
            else fields in
          try (let! new_record_id := execute_kw model (cur_db cursor) name "create"
                                       [fields] None in
               ret (Envelope None "id" new_record_id))
              (fun err => ret (Envelope (Some (repr err)) "id" PNone))
      else ret (Envelope (Some ModelNameRequired) "id" PNone)
  | None => ret (Envelope (Some ModelNameRequired) "id" PNone)
  end.

Definition update_record (model_name : option string) (ids fields : pyval) : M envelope :=
  match model_name with
  | Some name =>
      if str_truthy model_name then
        let! cursor := _check_model_access name ["read"; "write"] in
        if str_truthy (cur_error cursor)
        then ret (Envelope (cur_error cursor) "ids" PNone)
        else
          let model := cur_model cursor in
          if eq_empty_list ids
          then ret (Envelope (Some NoRecordsToUpdate) "ids" PNone)
          else if eq_empty_dict fields
          then ret (Envelope None "ids" ids)
          else
            try (let! _ := execute_kw model (cur_db cursor) name "write"
                             [ids; fields] None in
                 ret (Envelope None "ids" ids))
                (fun err => ret (Envelope (Some (repr err)) "ids" PNone))
      else ret (Envelope (Some ModelNameRequired) "ids" PNone)
  | None => ret (Envelope (Some ModelNameRequired) "ids" PNone)
  end.

Definition delete_record (model_name : option string) (ids : pyval) : M envelope :=
  match model_name with
  | Some name =>
      if str_truthy model_name then
        let! cursor := _check_model_access name ["read"; "unlink"] in
        if str_truthy (cur_error cursor)
        then ret (Envelope (cur_error cursor) "count" (PInt 0))
        else
          let model := cur_model cursor in
          if eq_empty_list ids
          then ret (Envelope (Some NoRecordsToDelete) "count" (PInt 0))
          else
            try (let! _ := execute_kw model (cur_db cursor) name "unlink" [ids] None in
                 match py_len ids with
                 | Some n => ret (Envelope None "count" (PInt (Z.of_nat n)))
                 | None => raise (Exn ("TypeError(" ++ dq ++ "object of type '"
                                       ++ type_name ids ++ "' has no len()" ++ dq ++ ")"))
                 end)
                (fun err => ret (Envelope (Some (repr err)) "count" (PInt 0)))
      else ret (Envelope (Some ModelNameRequired) "count" (PInt 0))
  | None => ret (Envelope (Some ModelNameRequired) "count" (PInt 0))
  end.

(** *** create_model *)

(** The argument [fields] of [create_model].  A Python list holds
    references: element [i] of [ListOf locs] is the object at location
    [locs !! i] of the store, and a location that occurs twice is one
    object seen twice. *)
Inductive fields_arg : Type :=
| NotAList (v : pyval)
| ListOf (locs : list nat).

(** the technical name [x_name] *)
Definition technical_name (model_name : string) : string :=
  let x_name := model_name in
  let x_name := lower x_name in
  let x_name := replace_char " " "_" x_name in
  if negb (re_match_x x_name) then "x_" ++ x_name else x_name.

(** [tmp_field] as first built in the loop *)
Definition default_field (id : pyval) (x_name : string) (i : nat) : dict :=
  [("model_id", id); ("state", PStr "manual"); ("ttype", PStr "char");
   ("name", PStr (x_name ++ "_field_" ++ str_of_nat i))].

(** The statements on one mapping [field] held at location [l]:
    the name check with its in-place update, then
    [tmp_field.update(field)].  [re.match] raises [TypeError] on a name
    that is not a string. *)
Definition prepare_field (id : pyval) (x_name : string) (i l : nat) (field : dict)
  : M dict :=
  let tmp_field := default_field id x_name i in
  let! field :=
    match dict_get "name" field with
    | Some (PStr s) =>
        if negb (re_match_x s) then
          let field' := dict_set "name" (PStr ("x_" ++ s)) field in
          let! _ := save l (PDict field') in
          ret field'
        else ret field
    | Some _ => raise (Exn "TypeError('expected string or bytes-like object')")
    | None => ret field
    end in
  ret (dict_update tmp_field field).

(** The loop [for i, field in enumerate(fields)].  The list is
    [done ++ todo] with [i = length done]: the assignment
    [fields[i] = tmp_field] puts the new dictionary, a fresh object, in
    place of the head of [todo].  [Break] carries the dictionary returned
    from inside the loop, [Continue] the list once the loop is over.  The
    compensating [unlink] stands outside any [try]. *)
Fixpoint field_loop (model : option string) (db id : pyval) (x_name : string)
         (i : nat) (todo : list nat) (done : list pyval)
  : M (ctl envelope (list pyval)) :=
  match todo with
  | [] => ret (Continue done)
  | l :: rest =>
      let! field := load l in
      match field with
      | PDict d =>
          let! tmp_field := prepare_field id x_name i l d in
          field_loop model db id x_name (S i) rest (done ++ [PDict tmp_field])
      | _ =>
          let! _ := execute_kw model db "ir.model" "unlink" [id] None in
          ret (Break (Envelope (Some FormatError) "id" PNone))
      end
  end.

Definition create_model (model_name : option string) (fields : fields_arg) : M envelope :=
  match model_name with
  | Some name =>
      if str_truthy model_name then
        let! cursor := _check_model_access "ir.model" ["read"; "create"; "unlink"] in
        if str_truthy (cur_error cursor)
        then ret (Envelope (cur_error cursor) "id" PNone)
        else
          let model := cur_model cursor in
          let x_name := technical_name name in
          match fields with
          | NotAList _ => ret (Envelope (Some FieldsFormatError) "id" PNone)
          | ListOf locs =>
              let! created :=
                try (let! id := execute_kw model (cur_db cursor) "ir.model" "create"
                                  [PDict [("name", PStr name); ("model", PStr x_name);
                                          ("state", PStr "manual")]] None in
                     ret (Continue id))
                    (fun err => ret (Break (Envelope (Some (repr err)) "id" PNone))) in
              match created with
              | Break early => ret early
              | Continue id =>
                  if negb (truthy id)
                  then ret (Envelope (Some ModelNotCreated) "id" PNone)
                  else
                    match locs with
                    | [] => ret (Envelope None "id" id)
                    | _ =>
                        let! looped := field_loop model (cur_db cursor) id x_name 0 locs [] in
                        match looped with
                        | Break early => ret early
                        | Continue fields =>
                            try (let! _ := execute_kw model (cur_db cursor)
                                             "ir.model.fields" "create" fields None in
                                 ret (Envelope None "id" id))
                                (fun err =>
                                   let! _ := execute_kw model (cur_db cursor)
                                               "ir.model" "unlink" [id] None in
                                   ret (Envelope (Some (repr err)) "id" PNone))
                        end
                    end
              end
          end
      else ret (Envelope (Some ModelNameRequired) "id" PNone)
  | None => ret (Envelope (Some ModelNameRequired) "id" PNone)
  end.

End Methods.

(** ** Sample servers and connectors *)

(** A server that accepts everything: two databases, session id 7, every
    right granted, [create] returns id 42, [search_count] counts 0. *)
Definition friendly (history : list event) (r : request) : reply :=
  match r with
  | Version _ => Ok (PDict [("server_version", PStr "14.0")])
  | ListDb _ => Ok (PList [PStr "db1"; PStr "db2"])
  | Authenticate _ _ _ _ => Ok (PInt 7)
  | ExecuteKw _ _ _ _ _ method _ _ =>
      if String.eqb method "create" then Ok (PInt 42)
      else if String.eqb method "search_count" then Ok (PInt 0)
      else Ok (PBool true)
  end.

(** As [friendly], but with three databases of which only [db2] takes the
    credentials. *)
Definition picky (history : list event) (r : request) : reply :=
  match r with
  | ListDb _ => Ok (PList [PStr "db1"; PStr "db2"; PStr "db3"])
  | Authenticate _ (PStr "db2") _ _ => Ok (PInt 7)
  | Authenticate _ _ _ _ => Fault "Fault(1, 'Access Denied')"
  | _ => friendly history r
  end.

(** As [friendly], but no database takes the credentials. *)
Definition locked (history : list event) (r : request) : reply :=
  match r with
  | Authenticate _ _ _ _ => Fault "Fault(1, 'Access Denied')"
  | _ => friendly history r
  end.

(** As [friendly], but the check of the right [read] faults. *)
Definition read_faults (history : list event) (r : request) : reply :=
  match r with
  | ExecuteKw _ _ _ _ _ "check_access_rights" [PStr "read"] _ =>
      Fault "Fault(3, 'Access Denied')"
  | _ => friendly history r
  end.

(** As [friendly], but [unlink] faults. *)
Definition unlink_faults (history : list event) (r : request) : reply :=
  match r with
  | ExecuteKw _ _ _ _ _ "unlink" _ _ => Fault "ProtocolError('connection reset')"
  | _ => friendly history r
  end.

Definition is_authenticate (ev : event) : bool :=
  match fst ev with Authenticate _ _ _ _ => true | _ => false end.

(** As [friendly] for the first authentication; every later one faults
    (the password was changed meanwhile). *)
Definition expiring (history : list event) (r : request) : reply :=
  match r with
  | Authenticate _ _ _ _ =>
      if existsb is_authenticate history
      then Fault "Fault(1, 'Access Denied')"
      else Ok (PInt 7)
  | _ => friendly history r
  end.

(** a connector with a configured database, and one without *)
Definition with_db : connector :=
  init (Some "http://odoo.example.com") None (Some "prod") (PStr "admin") (PStr "secret").

Definition without_db : connector :=
  init (Some "http://odoo.example.com") None None (PStr "admin") (PStr "secret").

(** the state of a new connector in front of a server, with the caller's
    objects *)
Definition fresh (srv : list event -> request -> reply) (objects : list pyval) : world :=
  World srv [] PNone objects.

(** As [friendly], but creating fields faults and so does [unlink]. *)
Definition hostile (history : list event) (r : request) : reply :=
  match r with
  | ExecuteKw _ _ _ _ "ir.model.fields" _ _ _ => Fault "Fault(2, 'Invalid field')"
  | ExecuteKw _ _ _ _ _ "unlink" _ _ => Fault "ProtocolError('connection reset')"
  | _ => friendly history r
  end.

(** ** Reading a trace *)

(** the procedure of an object call *)
Definition method_of (ev : event) : option string :=
  match fst ev with
  | ExecuteKw _ _ _ _ _ method _ _ => Some method
  | _ => None
  end.

(** the call is not a call of the remote procedure [method] *)
Definition not_method (method : string) (ev : event) : bool :=
  match method_of ev with
  | Some m => negb (String.eqb m method)
  | None => true
  end.

(** the calls of the access pipeline: version, listing, authentication
    and access checks *)
Definition access_event (ev : event) : bool :=
  match method_of ev with
  | Some m => String.eqb m "check_access_rights"
  | None => true
  end.

(** the calls that open a session: version, listing, authentication *)
Definition session_event (ev : event) : bool :=
  match method_of ev with
  | Some _ => false
  | None => true
  end.

(** an object call that went through: it was answered by a value, and an
    access check by a true one *)
Definition served (ev : event) : bool :=
  match ev with
  | (ExecuteKw _ _ _ _ _ method _ _, Ok v) =>
      if String.eqb method "check_access_rights" then truthy v else true
  | (ExecuteKw _ _ _ _ _ _ _ _, Fault _) => false
  | _ => true
  end.

(** the call is a creation of field definitions *)
Definition creates_fields (ev : event) : bool :=
  match fst ev with
  | ExecuteKw _ _ _ _ model method _ _ =>
      String.eqb model "ir.model.fields" && String.eqb method "create"
  | _ => false
  end.

Definition no_field_creation (ev : event) : bool := negb (creates_fields ev).

(** the session id issued by the last authentication of [evs] that
    returned, if any did *)
Fixpoint issued (evs : list event) : option pyval :=
  match evs with
  | [] => None
  | ev :: rest =>
      match issued rest with
      | Some u => Some u
      | None => match ev with
                | (Authenticate _ _ _ _, Ok u) => Some u
                | _ => None
                end
      end
  end.

(** the last authentication attempt of [evs] with its answer *)
Definition last_attempt (evs : list event) : option event :=
  last (filter (fun ev => is_authenticate ev = true) evs).

(** the rights checked in [evs], each with the answer *)
Definition rights_checked (evs : list event) : list (pyval * reply) :=
  flat_map (fun ev => match ev with
                      | (ExecuteKw _ _ _ _ _ "check_access_rights" [asked] _, a) => [(asked, a)]
                      | _ => []
                      end) evs.

(** the positional arguments of the last call of [method] in [evs] *)
Definition last_args (method : string) (evs : list event) : option (list pyval) :=
  match last (filter (fun ev => not_method method ev = false) evs) with
  | Some (ExecuteKw _ _ _ _ _ _ args _, _) => Some args
  | _ => None
  end.

(** the three object calls of [create_model] *)
Definition create_request (self : connector) (c : cursor) (u : pyval) (name : string)
  : request :=
  ExecuteKw (object_url self) (cur_db c) u (password self) "ir.model" "create"
            [PDict [("name", PStr name); ("model", PStr (technical_name name));
                    ("state", PStr "manual")]] None.

Definition unlink_request (self : connector) (c : cursor) (u id : pyval) : request :=
  ExecuteKw (object_url self) (cur_db c) u (password self) "ir.model" "unlink" [id] None.

Definition fields_request (self : connector) (c : cursor) (u : pyval)
           (fields : list pyval) : request :=
  ExecuteKw (object_url self) (cur_db c) u (password self) "ir.model.fields" "create"
            fields None.

(** ** The public methods as one family *)

Inductive call : Type :=
| GetIds (model_name : option string) (filter offset limit : pyval)
| GetRecords (model_name : option string) (filter offset limit fields : pyval)
| GetCount (model_name : option string) (filter : pyval)
| GetFields (model_name : option string) (attributes : pyval)
| CreateRecord (model_name : option string) (fields : pyval)
| UpdateRecord (model_name : option string) (ids fields : pyval)
| DeleteRecord (model_name : option string) (ids : pyval)
| CreateModel (model_name : option string) (fields : fields_arg).

Definition perform (self : connector) (c : call) : M envelope :=
  match c with
  | GetIds n f o l => get_ids self n f o l
  | GetRecords n f o l fs => get_records self n f o l fs
  | GetCount n f => get_count self n f
  | GetFields n a => get_fields self n a
  | CreateRecord n fs => create_record self n fs
  | UpdateRecord n ids fs => update_record self n ids fs
  | DeleteRecord n ids => delete_record self n ids
  | CreateModel n fs => create_model self n fs
  end.

(** the calls that cannot reach a compensating [unlink]: every call but
    [create_model] on a non-empty list *)
Definition no_compensation (c : call) : bool :=
  match c with
  | CreateModel _ (ListOf (_ :: _)) => false
  | _ => true
  end.

(** the primary result is null or zero *)
Definition null_or_zero (v : pyval) : bool :=
  match v with
  | PNone => true
  | PInt z => Z.eqb z 0
  | _ => false
  end.

(** ** Field descriptors *)

(** the name check of [create_model] on a mapping, as a function *)
Definition with_prefix (field : dict) : dict :=
  match dict_get "name" field with
  | Some (PStr s) =>
      if negb (re_match_x s) then dict_set "name" (PStr ("x_" ++ s)) field else field
  | _ => field
  end.

(** a mapping (each key once, as in every Python dictionary) whose name,
    if it has one, is a string *)
Definition descriptor (v : pyval) : Prop :=
  exists d, v = PDict d /\ NoDup (map fst d) /\
            (dict_get "name" d = None \/ exists n, dict_get "name" d = Some (PStr n)).

(** the objects at the locations [locs] of the store are descriptors *)
Definition descriptors (s : list pyval) (locs : list nat) : Prop :=
  Forall (fun l => exists v, s !! l = Some v /\ descriptor v) locs.

(** [isinstance(v, dict)] *)
Definition is_dict (v : pyval) : bool :=
  match v with PDict _ => true | _ => false end.

(** [renamed d d']: [d'] is [d] after the name check has passed over it
    some number of times (an object listed more than once is checked at
    each of its places) *)
Inductive renamed (d : dict) : dict -> Prop :=
| renamed_same : renamed d d
| renamed_again d' : renamed d d' -> renamed d (with_prefix d').

(** ** Runs *)

Local Open Scope list_scope.

(** [wp m w Phi]: the run of [m] from [w] ends in an outcome and a state
    that satisfy [Phi]. *)
Definition wp {A} (m : M A) (w : world) (Phi : outcome A -> world -> Prop) : Prop :=
  Phi (fst (m w)) (snd (m w)).

(** [extends w evs w']: [w'] is [w] after the calls [evs]: same server,
    the calls appended to the trace, and [self.uid] holding what the last
    authentication that returned has issued. *)
Definition extends (w : world) (evs : list event) (w' : world) : Prop :=
  server w' = server w /\
  trace w' = trace w ++ evs /\
  uid w' = default (uid w) (issued evs).

Definition all (P : event -> bool) (evs : list event) : Prop :=
  Forall (fun ev => P ev = true) evs.

(** the state once the authentication [r] has returned [u] and [login]
    has stored it *)
Definition signed_in (w : world) (r : request) (u : pyval) : world :=
  World (server w) (trace w ++ [(r, Ok u)]) u (store w).

(** the attempt to authenticate against database [d] faulted *)
Definition failed_attempt (self : connector) (d : pyval) (ev : event) : Prop :=
  exists f, ev = (Authenticate (common_url self) d (username self) (password self), Fault f).

(** the attempt to authenticate against database [d] issued [u] *)
Definition attempt_ok (self : connector) (d u : pyval) : event :=
  (Authenticate (common_url self) d (username self) (password self), Ok u).

(** what holds after any run of the pipeline: the store is untouched, the
    calls made are pipeline calls, and an error is either absent or a
    non-empty message *)
Definition pipeline_post (P : event -> bool) (w : world) (err : option string)
           (raised : bool) (w' : world) (evs : list event) : Prop :=
  store w' = store w /\ extends w evs w' /\ all P evs /\
  (raised = false -> err = None \/ str_truthy err = true).

(** the run ends by a [return] *)
Definition returns {A} (o : outcome A) (w : world) : Prop := exists a, o = Ret a.

(** what every public method guarantees *)
Definition method_post (w : world) (o : outcome envelope) (w' : world) : Prop :=
  exists evs, extends w evs w' /\
    match o with
    | Ret env => (error env <> None -> null_or_zero (value env) = true) /\
                 (error env = None -> all served evs)
    | Raise _ => True
    end.

(** A server that cannot be reached: every call faults. *)
Definition unreachable (history : list event) (r : request) : reply :=
  Fault "ConnectionRefusedError(111, 'Connection refused')".

(** As [friendly], but the listing of the databases faults. *)
Definition listing_faults (history : list event) (r : request) : reply :=
  match r with
  | ListDb _ => Fault "Fault(3, 'Access Denied')"
  | _ => friendly history r
  end.

(** As [friendly], but the right [create] is denied. *)
Definition read_only (history : list event) (r : request) : reply :=
  match r with
  | ExecuteKw _ _ _ _ _ "check_access_rights" [PStr "create"] _ => Ok (PBool false)
  | _ => friendly history r
  end.

(** As [friendly], but every procedure other than the access check and
    the creation of a model faults. *)
Definition failing (history : list event) (r : request) : reply :=
  match r with
  | ExecuteKw _ _ _ _ _ "check_access_rights" _ _ => Ok (PBool true)
  | ExecuteKw _ _ _ _ "ir.model" "create" _ _ => Ok (PInt 42)
  | ExecuteKw _ _ _ _ "ir.model" "unlink" _ _ => Ok (PBool true)
  | ExecuteKw _ _ _ _ _ _ _ _ => Fault "Fault(2, 'Invalid field')"
  | _ => friendly history r
  end.

(** the check of one right, as [_check_model_access] sends it *)
Definition check_request (self : connector) (db u : pyval) (name right_ : string)
  : request :=
  ExecuteKw (object_url self) db u (password self) name "check_access_rights"
            [PStr right_] (Some [("raise_exception", PBool false)]).

(** the server answers the request [r] by a value with the truth value
    [b], whatever calls it has seen before *)
Definition answers (w : world) (r : request) (b : bool) : Prop :=
  forall history, exists v, server w history r = Ok v /\ truthy v = b.

(** every character of the string passes the test *)
Fixpoint all_chars (P : ascii -> bool) (s : string) : bool :=
  match s with
  | EmptyString => true
  | String c s' => P c && all_chars P s'
  end.

(** an ASCII capital letter *)
Definition is_upper (c : ascii) : bool :=
  (65 <=? nat_of_ascii c)%nat && (nat_of_ascii c <=? 90)%nat.

(** neither a space nor an ASCII capital letter *)
Definition technical_char (c : ascii) : bool :=
  negb (Ascii.eqb c " ") && negb (is_upper c).

(** the locations of the caller's objects that a call lists *)
Definition listed (c : call) : list nat :=
  match c with
  | CreateModel _ (ListOf locs) => locs
  | _ => []
  end.

(** what [create_model] returns right after the creation of the model,
    when it has no field to go through or no model to go on with *)
Definition creation_result (a : reply) : envelope :=
  match a with
  | Ok id => if truthy id then Envelope None "id" id
             else Envelope (Some ModelNotCreated) "id" PNone
  | Fault f => Envelope (Some f) "id" PNone
  end.

(** the creation of the model gave a true id *)
Definition created (a : reply) : bool :=
  match a with
  | Ok id => truthy id
  | Fault _ => false
  end.

(** [isinstance(v, str)] *)
Definition is_str (v : pyval) : bool :=
  match v with PStr _ => true | _ => false end.

(** the reading methods *)
Definition reads (c : call) : bool :=
  match c with
  | GetIds _ _ _ _ | GetRecords _ _ _ _ _ | GetCount _ _ | GetFields _ _ => true
  | _ => false
  end.

(** a call that changes nothing on the server: a call that opens the
    session, an access check or one of the reading procedures *)
Definition harmless (ev : event) : bool :=
  match method_of ev with
  | Some m => String.eqb m "check_access_rights" || String.eqb m "search"
              || String.eqb m "search_read" || String.eqb m "search_count"
              || String.eqb m "fields_get"
  | None => true
  end.

(** ** The parts of a public method *)

(** the argument [model_name] *)
Definition name_of (c : call) : option string :=
  match c with
  | GetIds n _ _ _ | GetRecords n _ _ _ _ | GetCount n _ | GetFields n _
  | CreateRecord n _ | UpdateRecord n _ _ | DeleteRecord n _ | CreateModel n _ => n
  end.

(** the key of the primary result *)
Definition key_of (c : call) : string :=
  match c with
  | GetIds _ _ _ _ => "ids"
  | GetRecords _ _ _ _ _ => "records"
  | GetCount _ _ => "count"
  | GetFields _ _ => "fields"
  | CreateRecord _ _ => "id"
  | UpdateRecord _ _ _ => "ids"
  | DeleteRecord _ _ => "count"
  | CreateModel _ _ => "id"
  end.

(** the primary result that goes with an error *)
Definition empty_result (c : call) : pyval :=
  match c with
  | DeleteRecord _ _ => PInt 0
  | _ => PNone
  end.

(** the dictionary returned on the error [msg] *)
Definition failure (c : call) (msg : option string) : envelope :=
  Envelope msg (key_of c) (empty_result c).

(** the primary result is populated: it is not the result that goes
    with an error *)
Definition populated (c : call) (v : pyval) : Prop := v <> empty_result c.

(** exactly one of: the error is present, the primary result is
    populated *)
Definition exactly_one (c : call) (env : envelope) : Prop :=
  (error env <> None /\ ~ populated c (value env)) \/
  (error env = None /\ populated c (value env)).

(** [isinstance(v, list)] *)
Definition is_list (v : pyval) : bool :=
  match v with PList _ => true | _ => false end.

(** the server never answers by the null value *)
Definition never_null (w : world) : Prop :=
  forall history r, server w history r <> Ok PNone.

(** the well-formed cases: the argument [ids] of [update_record] and
    [delete_record] is a list, as the docstrings type it; where the
    primary result is the answer of the server, the server never answers
    by null; no condition on [create_model] *)
Definition well_formed (c : call) (w : world) : Prop :=
  match c with
  | UpdateRecord _ ids _ | DeleteRecord _ ids => is_list ids = true
  | CreateModel _ _ => True
  | _ => never_null w
  end.

(** the primary result of a returned dictionary, by its error *)
Definition shape_post (c : call) (w : world) (o : outcome envelope) (w' : world) : Prop :=
  match o with
  | Ret env =>
      (error env <> None -> value env = empty_result c) /\
      (error env = None -> well_formed c w -> populated c (value env))
  | Raise _ => True
  end.

(** every character is an ASCII character *)
Definition is_ascii (c : ascii) : bool := (nat_of_ascii c <? 128)%nat.

(** the model whose access is checked, and the rights asked for *)
Definition checked_model (c : call) (name : string) : string :=
  match c with
  | CreateModel _ _ => "ir.model"
  | _ => name
  end.

Definition scope_of (c : call) : list string :=
  match c with
  | GetIds _ _ _ _ | GetRecords _ _ _ _ _ | GetCount _ _ | GetFields _ _ => ["read"]
  | CreateRecord _ _ => ["read"; "create"]
  | UpdateRecord _ _ _ => ["read"; "write"]
  | DeleteRecord _ _ => ["read"; "unlink"]
  | CreateModel _ _ => ["read"; "create"; "unlink"]
  end.

(** The procedure a data method calls once access is granted, with its
    positional and keyword arguments; [None] where the method returns
    before any call of its own ([create_model] has its own section). *)
Definition own_call (c : call) (name : string)
  : option (string * list pyval * option dict) :=
  match c with
  | GetIds _ f o l => Some ("search", [f], Some [("offset", o); ("limit", l)])
  | GetRecords _ f o l fs =>
      Some ("search_read", [f],
            Some (if negb (eq_empty_list fs)
                  then [("offset", o); ("limit", l); ("fields", fs)]
                  else [("offset", o); ("limit", l)]))
  | GetCount _ f => Some ("search_count", [f], None)
  | GetFields _ a => Some ("fields_get", [], Some [("attributes", a)])
  | CreateRecord _ fs =>
      Some ("create",
            [if eq_empty_list fs
             then PList [PDict [("name",
                                 PStr ("New " ++ capitalize (split_head "." name))%string)]]
             else fs],
            None)
  | UpdateRecord _ ids fs =>
      if eq_empty_list ids || eq_empty_dict fs then None
      else Some ("write", [ids; fs], None)
  | DeleteRecord _ ids =>
      if eq_empty_list ids then None else Some ("unlink", [ids], None)
  | CreateModel _ _ => None
  end.

(** the dictionary returned when the own call has returned [v] *)
Definition success (c : call) (v : pyval) : envelope :=
  match c with
  | UpdateRecord _ ids _ => Envelope None "ids" ids
  | DeleteRecord _ ids =>
      match py_len ids with
      | Some n => Envelope None "count" (PInt (Z.of_nat n))
      | None => Envelope (Some ("TypeError(" ++ dq ++ "object of type '" ++ type_name ids
                                ++ "' has no len()" ++ dq ++ ")")%string) "count" (PInt 0)
      end
  | _ => Envelope None (key_of c) v
  end.

(** the request of a procedure through the proxy of the cursor *)
Definition object_request (self : connector) (cur : cursor) (u : pyval) (name : string)
           (p : string * list pyval * option dict) : request :=
  ExecuteKw (object_url self) (cur_db cur) u (password self) name
            (fst (fst p)) (snd (fst p)) (snd p).

(** * Properties *)

Arguments wp : simpl never.
Arguments bind : simpl never.
Arguments try : simpl never.
Arguments ret : simpl never.
Arguments raise : simpl never.
Arguments rpc : simpl never.
Arguments get_uid : simpl never.
Arguments set_uid : simpl never.
Arguments load : simpl never.
Arguments save : simpl never.

(** ** Rules for runs *)

Lemma wp_run {A} (m : M A) w o w' Phi :
  wp m w Phi -> m w = (o, w') -> Phi o w'.
Proof. unfold wp. intros H E. rewrite E in H. exact H. Qed.

Lemma wp_mono {A} (m : M A) w (Phi Psi : outcome A -> world -> Prop) :
  wp m w Phi -> (forall o w', Phi o w' -> Psi o w') -> wp m w Psi.
Proof. unfold wp. auto. Qed.

Lemma wp_ret {A} (a : A) w Phi : Phi (Ret a) w -> wp (ret a) w Phi.
Proof. auto. Qed.

Lemma wp_raise {A} e w (Phi : outcome A -> world -> Prop) :
  Phi (Raise e) w -> wp (raise e) w Phi.
Proof. auto. Qed.

Lemma wp_bind {A B} (m : M A) (k : A -> M B) w Phi :
  wp m w (fun o w1 => match o with
                      | Ret a => wp (k a) w1 Phi
                      | Raise e => Phi (Raise e) w1
                      end) ->
  wp (bind m k) w Phi.
Proof. unfold wp, bind. destruct (m w) as [[a|e] w1]; auto. Qed.

Lemma wp_try {A} (m : M A) (h : exn -> M A) w Phi :
  wp m w (fun o w1 => match o with
                      | Ret a => Phi (Ret a) w1
                      | Raise e => wp (h e) w1 Phi
                      end) ->
  wp (try m h) w Phi.
Proof. unfold wp, try. destruct (m w) as [[a|e] w1]; auto. Qed.

Lemma wp_rpc r w Phi :
  (forall a, server w (trace w) r = a -> Phi (delivered a) (log w r a)) ->
  wp (rpc r) w Phi.
Proof. unfold wp, rpc. simpl. auto. Qed.

Lemma wp_get_uid w Phi : Phi (Ret (uid w)) w -> wp get_uid w Phi.
Proof. auto. Qed.

Lemma wp_set_uid u w Phi :
  Phi (Ret tt) (World (server w) (trace w) u (store w)) -> wp (set_uid u) w Phi.
Proof. auto. Qed.

Lemma wp_load l w Phi : Phi (Ret (default PNone (store w !! l))) w -> wp (load l) w Phi.
Proof. auto. Qed.

Lemma wp_save l v w Phi :
  Phi (Ret tt) (World (server w) (trace w) (uid w) (<[l := v]> (store w))) ->
  wp (save l v) w Phi.
Proof. auto. Qed.

(** ** Traces *)

Lemma issued_app evs1 evs2 :
  issued (evs1 ++ evs2) =
  match issued evs2 with Some u => Some u | None => issued evs1 end.
Proof.
  induction evs1 as [|ev evs1 IH]; simpl.
  - destruct (issued evs2); reflexivity.
  - rewrite IH. destruct (issued evs2); reflexivity.
Qed.

Lemma extends_refl w : extends w [] w.
Proof. unfold extends. simpl. rewrite app_nil_r. auto. Qed.

Lemma extends_trans w evs1 w1 evs2 w2 :
  extends w evs1 w1 -> extends w1 evs2 w2 -> extends w (evs1 ++ evs2) w2.
Proof.
  intros (S1 & T1 & U1) (S2 & T2 & U2). unfold extends.
  rewrite S2, S1, T2, T1, U2, U1, issued_app, app_assoc.
  destruct (issued evs2); auto.
Qed.

Lemma extends_log w r a :
  issued [(r, a)] = None -> extends w [(r, a)] (log w r a).
Proof.
  intros H. unfold extends, log. rewrite H. simpl. auto.
Qed.

Lemma all_nil P : all P [].
Proof. constructor. Qed.

Lemma all_app P evs1 evs2 : all P evs1 -> all P evs2 -> all P (evs1 ++ evs2).
Proof. unfold all. intros. apply Forall_app. auto. Qed.

Lemma all_one P ev : P ev = true -> all P [ev].
Proof. unfold all. auto. Qed.

Lemma all_weaken (P Q : event -> bool) evs :
  (forall ev, P ev = true -> Q ev = true) -> all P evs -> all Q evs.
Proof. unfold all. intros H HP. eapply Forall_impl; eauto. Qed.

Lemma extends_signed w url d usr pw u :
  extends w [(Authenticate url d usr pw, Ok u)] (signed_in w (Authenticate url d usr pw) u).
Proof. unfold extends, signed_in. simpl. auto. Qed.

Lemma wp_login self common d w Phi :
  (forall a,
      server w (trace w) (Authenticate common d (username self) (password self)) = a ->
      match a with
      | Ok u => Phi (Ret tt)
                    (signed_in w (Authenticate common d (username self) (password self)) u)
      | Fault f => Phi (Raise (Exn f))
                       (log w (Authenticate common d (username self) (password self))
                            (Fault f))
      end) ->
  wp (login self (Some common) d) w Phi.
Proof.
  intros H. unfold wp, login, bind, rpc, set_uid. simpl.
  specialize (H _ eq_refl).
  destruct (server w (trace w) _); exact H.
Qed.

Lemma extends_step w evs w1 r a :
  extends w evs w1 -> issued [(r, a)] = None -> extends w (evs ++ [(r, a)]) (log w1 r a).
Proof. intros H1 H2. eapply extends_trans; [exact H1 | apply extends_log, H2]. Qed.

Lemma extends_step_signed w evs w1 url d usr pw u :
  extends w evs w1 ->
  extends w (evs ++ [(Authenticate url d usr pw, Ok u)])
          (signed_in w1 (Authenticate url d usr pw) u).
Proof. intros H1. eapply extends_trans; [exact H1 | apply extends_signed]. Qed.

(** [ext] finds the calls between two states, [alls] checks them *)
Ltac ext :=
  lazymatch goal with
  | |- extends ?w _ ?w => apply extends_refl
  | H : extends ?w _ ?w1 |- extends ?w _ ?w1 => exact H
  | |- extends _ _ (log _ _ _) => eapply extends_step; [ext | reflexivity]
  | |- extends _ _ (signed_in _ _ _) => eapply extends_step_signed; ext
  | H : extends ?w1 _ ?w2 |- extends _ _ ?w2 => eapply extends_trans; [ | exact H]; ext
  end.

Ltac alls :=
  repeat first [ assumption | apply all_nil | apply all_app
               | apply all_one; reflexivity ].

Lemma all_access_failed self dbs evs :
  Forall2 (failed_attempt self) dbs evs -> all session_event evs /\ issued evs = None.
Proof.
  induction 1 as [|d ev dbs evs (f & ->) _ (IH1 & IH2)]; simpl.
  - split; [apply all_nil | reflexivity].
  - rewrite IH2. split; [|reflexivity]. constructor; [reflexivity | exact IH1].
Qed.

(** ** Authentication *)

(** The loop over the databases: either some database [d] is the first
    whose attempt returns, after the attempts on all databases before it
    faulted, or all attempts faulted. *)
Lemma auth_loop_spec self dbs : forall err cdb w,
  wp (auth_loop self (Some (common_url self)) dbs err cdb) w (fun o w' =>
    store w' = store w /\
    exists evs, extends w evs w' /\ all session_event evs /\
      ((exists pre d post u fl,
           dbs = pre ++ d :: post /\ Forall2 (failed_attempt self) pre fl /\
           evs = fl ++ [attempt_ok self d u] /\ o = Ret (None, d) /\ uid w' = u)
       \/ (Forall2 (failed_attempt self) dbs evs /\ uid w' = uid w /\
           o = Ret (match dbs with [] => err | _ => Some AuthError end, cdb)))).
Proof.
  induction dbs as [|d rest IH]; intros err cdb w.
  - apply wp_ret. split; [reflexivity|]. exists []. split; [apply extends_refl|].
    split; [apply all_nil|]. right. auto.
  - unfold wp. simpl. unfold bind, try, login, bind, rpc, set_uid, ret. simpl.
    destruct (server w (trace w) _) as [u|f] eqn:Ea; simpl.
    + split; [reflexivity|]. exists [attempt_ok self d u].
      split; [repeat split|]. split; [apply all_one; reflexivity|].
      left. exists [], d, rest, u, []. repeat split. constructor.
    + match goal with
      | |- context [auth_loop ?s ?c ?r ?e ?cd (log w ?rq ?a)] =>
          pose proof (IH e cd (log w rq a)) as IH'; unfold wp in IH';
          pose proof (extends_log w rq a eq_refl) as Ext1;
          destruct (auth_loop s c r e cd (log w rq a)) as [o w'] eqn:E
      end.
      simpl in IH'. destruct IH' as (St & evs & Ext & Acc & Cases).
      pose proof (extends_trans _ _ _ _ _ Ext1 Ext) as Ext2.
      destruct Cases as [(pre & d' & post & u & fl & -> & F & -> & -> & U)
                        |(F & U & ->)]; simpl.
      * split; [exact St|]. eexists. split; [exact Ext2|].
        split; [constructor; [reflexivity | exact Acc]|].
        left.
        exists (d :: pre), d', post, u,
          ((Authenticate (common_url self) d (username self) (password self), Fault f)
             :: fl).
        repeat split; auto.
        constructor; [exists f; reflexivity | exact F].
      * split; [exact St|]. eexists. split; [exact Ext2|].
        split; [constructor; [reflexivity | exact Acc]|].
        right. split; [constructor; [exists f; reflexivity | exact F]|].
        split; [exact U|]. destruct rest; reflexivity.
Qed.

Lemma auth_any_db_spec self cdb w :
  wp (auth_any_db self (Some (common_url self)) None cdb) w (fun o w' =>
    exists evs,
      pipeline_post session_event w (match o with Ret (e, _) => e | Raise _ => None end)
                    (match o with Ret _ => false | Raise _ => true end) w' evs).
Proof.
  unfold auth_any_db, _get_db_name. apply wp_bind, wp_rpc. intros [dbs|f] Ha; simpl.
  - destruct (eq_empty_list dbs) eqn:He; simpl.
    + apply wp_ret. eexists. split; [reflexivity|]. split; [ext|]. split; [alls|].
      intros _. right. reflexivity.
    + destruct (py_iter dbs) as [items|] eqn:Hi.
      * eapply wp_mono; [apply auth_loop_spec|]. simpl.
        intros o w' (St & evs & Ext & Acc & Cases).
        eexists. split; [exact St|]. split; [ext|]. split; [alls|].
        destruct Cases as [(pre & d & post & u & fl & _ & _ & _ & -> & _)|(_ & _ & ->)].
        -- intros _. left. reflexivity.
        -- intros _. destruct items; [left|right]; reflexivity.
      * apply wp_raise. eexists. split; [reflexivity|]. split; [ext|]. split; [alls|].
        discriminate.
  - eexists. split; [reflexivity|]. split; [ext|]. split; [alls|]. discriminate.
Qed.

Lemma authenticate_spec self w :
  wp (_authenticate self) w (fun o w' =>
    exists evs,
      pipeline_post session_event w
                    (match o with Ret res => auth_error res | Raise _ => None end)
                    (match o with Ret _ => false | Raise _ => true end) w' evs).
Proof.
  assert (Any : forall w0 evs0, extends w evs0 w0 -> all session_event evs0 ->
            store w0 = store w ->
            wp (let! (error, connected_db) :=
                  auth_any_db self (Some (common_url self)) None PNone in
                if str_truthy error then ret (AuthResult error connected_db)
                else ret (AuthResult None connected_db)) w0
               (fun o w' => exists evs,
                  pipeline_post session_event w
                    (match o with Ret res => auth_error res | Raise _ => None end)
                    (match o with Ret _ => false | Raise _ => true end) w' evs)).
  { intros w0 evs0 Ext0 All0 St0. apply wp_bind.
    eapply wp_mono; [apply auth_any_db_spec|].
    intros [[e c]|ex] w' (evs & St & Ext & Acc & Err); simpl.
    - destruct (str_truthy e) eqn:Ht; apply wp_ret; eexists;
        (split; [congruence|]); (split; [ext|]); (split; [alls|]); intros _; simpl; auto.
    - eexists. split; [congruence|]. split; [ext|]. split; [alls|]. discriminate. }
  unfold _authenticate, _create_connection.
  apply wp_bind, wp_try, wp_bind, wp_rpc. intros [ver|f] Ha; simpl.
  - apply wp_ret. simpl.
    destruct (db self) as [name|] eqn:Hdb; [destruct (str_truthy (Some name)) eqn:Ht|].
    + apply wp_bind, wp_try, wp_bind, wp_login. intros [u|f] Hb; simpl.
      * apply wp_ret. simpl. apply wp_ret. eexists.
        split; [reflexivity|]. split; [ext|]. split; [alls|]. intros _. left. reflexivity.
      * apply wp_ret. simpl. apply wp_ret. eexists.
        split; [reflexivity|]. split; [ext|]. split; [alls|]. intros _. right. reflexivity.
    + eapply Any; [ext | alls | reflexivity].
    + eapply Any; [ext | alls | reflexivity].
  - apply wp_ret. simpl. apply wp_bind, wp_ret. simpl. apply wp_ret. eexists.
    split; [reflexivity|]. split; [ext|]. split; [alls|]. intros _. right. reflexivity.
Qed.

(** ** Access checks *)

(** The loop over the rights: an absent error at the end means that no
    error was there at the start and that every check was answered by a
    true value; the proxy is then set as soon as one right was checked. *)
Lemma access_loop_spec self db name scope : forall err model w,
  err = None \/ str_truthy err = true ->
  wp (access_loop self (object_url self) db name scope err model) w (fun o w' =>
    exists evs err' model',
      o = Ret (err', model') /\
      pipeline_post access_event w err' false w' evs /\
      (err' = None ->
       err = None /\ all served evs /\
       model' = match scope with [] => model | _ => Some (object_url self) end)).
Proof.
  induction scope as [|r rest IH]; intros err model w Herr.
  - apply wp_ret. exists [], err, model. split; [reflexivity|].
    split; [split; [reflexivity|split; [ext|split; [alls|auto]]]|].
    intros H. split; [exact H|]. split; [apply all_nil|reflexivity].
  - simpl. apply wp_bind, wp_try, wp_bind, wp_get_uid, wp_bind, wp_rpc.
    intros [v|f] Ha; simpl.
    + destruct (truthy v) eqn:Hv; simpl.
      * apply wp_ret. simpl.
        eapply wp_mono; [apply (IH err (Some (object_url self)) _ Herr)|].
        intros o w' (evs & err' & model' & -> & (St & Ext & Acc & Err) & Suc).
        eexists _, err', model'. split; [reflexivity|].
        split; [split; [exact St|split; [ext|split; [alls|exact Err]]]|].
        intros H. destruct (Suc H) as (-> & Sv & ->).
        split; [reflexivity|]. split.
        -- apply all_app; [apply all_app; [apply all_nil|apply all_one]|exact Sv].
           simpl. exact Hv.
        -- destruct rest; reflexivity.
      * apply wp_ret. simpl. apply wp_ret.
        eexists _, _, _. split; [reflexivity|].
        split; [split; [reflexivity|split; [ext|split; [alls|intros _; right; reflexivity]]]|].
        discriminate.
    + apply wp_ret. simpl.
      eapply wp_mono; [apply (IH (Some InvalidCredentials) model _); right; reflexivity|].
      intros o w' (evs & err' & model' & -> & (St & Ext & Acc & Err) & Suc).
      eexists _, err', model'. split; [reflexivity|].
      split; [split; [exact St|split; [ext|split; [alls|exact Err]]]|].
      intros H. destruct (Suc H) as (Abs & _). discriminate.
Qed.

(** The access check: on an absent error every object call so far went
    through and, when some right was asked for, the proxy is there. *)
Lemma check_model_access_spec self name scope w :
  wp (_check_model_access self name scope) w (fun o w' =>
    exists evs,
      pipeline_post access_event w
                    (match o with Ret c => cur_error c | Raise _ => None end)
                    (match o with Ret _ => false | Raise _ => true end) w' evs /\
      match o with
      | Ret c => cur_error c = None ->
                 all served evs /\
                 cur_model c = match scope with [] => None | _ => Some (object_url self) end
      | Raise _ => True
      end).
Proof.
  unfold _check_model_access. apply wp_bind.
  eapply wp_mono; [apply authenticate_spec|].
  intros [auth|ex] w1 (evs1 & St1 & Ext1 & Acc1 & Err1); simpl.
  - assert (Acc1' : all access_event evs1).
    { revert Acc1. apply all_weaken. intros ev. unfold session_event, access_event.
      destruct (method_of ev); [discriminate|reflexivity]. }
    assert (Srv1 : all served evs1).
    { revert Acc1. apply all_weaken. intros [[] []]; simpl; auto; discriminate. }
    apply wp_bind. destruct (auth_error auth) as [e|] eqn:He.
    + apply wp_ret. simpl. apply wp_ret. exists evs1. simpl.
      split; [|discriminate].
      split; [exact St1|]. split; [ext|]. split; [alls|]. intros _. exact (Err1 eq_refl).
    + eapply wp_mono; [apply access_loop_spec; left; reflexivity|].
      intros o w' (evs & err' & model' & -> & (St & Ext & Acc & Err) & Suc).
      apply wp_ret. eexists. simpl. split.
      * split; [congruence|]. split; [ext|]. split; [alls|exact Err].
      * intros H. destruct (Suc H) as (_ & Sv & ->). split; [alls|reflexivity].
  - eexists. split; [|exact I]. split; [exact St1|]. split; [ext|]. split; [|discriminate].
    revert Acc1. apply all_weaken. intros ev. unfold session_event, access_event.
    destruct (method_of ev); [discriminate|reflexivity].
Qed.

(** ** The public methods *)

Lemma truthy_error_some (e : option string) : str_truthy e = true -> e <> None.
Proof. intros H ->. discriminate. Qed.

(** [prepare_field] makes no call *)
Lemma prepare_field_spec id x_name i l d w :
  wp (prepare_field id x_name i l d) w (fun o w' => extends w [] w').
Proof.
  unfold prepare_field. apply wp_bind.
  destruct (dict_get "name" d) as [[| | |s| |]|]; try (apply wp_raise; ext);
    try (apply wp_ret; simpl; apply wp_ret; ext).
  destruct (negb (re_match_x s)).
  - apply wp_bind, wp_save. simpl. apply wp_ret. simpl. apply wp_ret.
    unfold extends. simpl. rewrite app_nil_r. auto.
  - apply wp_ret. simpl. apply wp_ret. ext.
Qed.

(** the loop over the descriptors either goes through without a call or
    leaves with the format error *)
Lemma field_loop_spec self db id x_name todo : forall i done w,
  wp (field_loop self (Some (object_url self)) db id x_name i todo done) w (fun o w' =>
    exists evs, extends w evs w' /\
      match o with
      | Ret (Break env) => error env = Some FormatError /\ value env = PNone
      | Ret (Continue _) => evs = []
      | Raise _ => True
      end).
Proof.
  induction todo as [|l rest IH]; intros i done w.
  - apply wp_ret. exists []. split; [ext|reflexivity].
  - simpl. apply wp_bind, wp_load. simpl.
    destruct (default PNone (store w !! l)) as [| | | | |d];
      try (unfold execute_kw; apply wp_bind, wp_bind, wp_get_uid, wp_rpc;
           intros [v|f] Ha; simpl; [apply wp_ret|]; eexists; (split; [ext|auto])).
    apply wp_bind. eapply wp_mono; [apply prepare_field_spec|].
    intros [tmp|ex] w1 Ext1; simpl.
    + eapply wp_mono; [apply IH|]. intros o w' (evs & Ext & H).
      exists evs. split; [|exact H].
      change evs with ([] ++ evs). ext.
    + exists []. split; [exact Ext1|exact I].
Qed.


(** the end of a run: name the calls, then settle the two halves of
    [method_post] *)
Ltac finish :=
  eexists; split; [ext|];
  first [ exact I
        | split; intros ?;
          [ first [ reflexivity | congruence | contradiction ]
          | first [ discriminate | congruence
                  | repeat first [ assumption | apply all_nil | apply all_app
                                 | apply all_one; reflexivity ] ] ] ].

(** the guard on the model name and the access check that open every
    method; what is left is the method's own part, under an absent error
    of the check *)
Ltac enter self c w1 evs1 Ext1 Sv Md :=
  let St1 := fresh "St" in let Acc1 := fresh "Acc" in
  let Err1 := fresh "Err" in let Suc := fresh "Suc" in
  let Ht := fresh "Ht" in let Hc := fresh "Hc" in
  apply wp_bind; eapply wp_mono; [apply check_model_access_spec|];
  intros [c|?] w1 (evs1 & (St1 & Ext1 & Acc1 & Err1) & Suc); simpl;
  [ destruct (str_truthy (cur_error c)) eqn:Ht;
    [ apply wp_ret; eexists; split; [ext|]; split; intros Hc; simpl in *;
      [ reflexivity | rewrite Hc in Ht; discriminate ]
    | assert (Hc : cur_error c = None)
        by (destruct (Err1 eq_refl) as [|Hc]; [assumption | congruence]);
      destruct (Suc Hc) as (Sv & Md); simpl in Md; rewrite ?Md ]
  | eexists; split; [ext | exact I] ].

Ltac nameless :=
  apply wp_ret; exists []; split; [ext|]; split; intros ?;
  [ reflexivity | discriminate ].

Lemma get_ids_post self n f o l w : wp (get_ids self n f o l) w (method_post w).
Proof.
  unfold get_ids. destruct n as [name|]; [destruct (str_truthy (Some name))|];
    try nameless.
  enter self c w1 evs1 Ext1 Sv Md.
  unfold execute_kw. apply wp_try, wp_bind, wp_bind, wp_get_uid, wp_rpc.
  intros [v|e] Ha; simpl; apply wp_ret; finish.
Qed.

Lemma get_records_post self n f o l fs w :
  wp (get_records self n f o l fs) w (method_post w).
Proof.
  unfold get_records. destruct n as [name|]; [destruct (str_truthy (Some name))|];
    try nameless.
  enter self c w1 evs1 Ext1 Sv Md.
  unfold execute_kw. apply wp_try, wp_bind, wp_bind, wp_get_uid, wp_rpc.
  intros [v|e] Ha; simpl; apply wp_ret; finish.
Qed.

Lemma get_count_post self n f w : wp (get_count self n f) w (method_post w).
Proof.
  unfold get_count. destruct n as [name|]; [destruct (str_truthy (Some name))|];
    try nameless.
  enter self c w1 evs1 Ext1 Sv Md.
  unfold execute_kw. apply wp_try, wp_bind, wp_bind, wp_get_uid, wp_rpc.
  intros [v|e] Ha; simpl; apply wp_ret; finish.
Qed.

Lemma get_fields_post self n a w : wp (get_fields self n a) w (method_post w).
Proof.
  unfold get_fields. destruct n as [name|]; [destruct (str_truthy (Some name))|];
    try nameless.
  enter self c w1 evs1 Ext1 Sv Md.
  unfold execute_kw. apply wp_try, wp_bind, wp_bind, wp_get_uid, wp_rpc.
  intros [v|e] Ha; simpl; apply wp_ret; finish.
Qed.

Lemma create_record_post self n fs w : wp (create_record self n fs) w (method_post w).
Proof.
  unfold create_record. destruct n as [name|]; [destruct (str_truthy (Some name))|];
    try nameless.
  enter self c w1 evs1 Ext1 Sv Md.
  unfold execute_kw. apply wp_try, wp_bind, wp_bind, wp_get_uid, wp_rpc.
  intros [v|e] Ha; simpl; apply wp_ret; finish.
Qed.

Lemma update_record_post self n ids fs w :
  wp (update_record self n ids fs) w (method_post w).
Proof.
  unfold update_record. destruct n as [name|]; [destruct (str_truthy (Some name))|];
    try nameless.
  enter self c w1 evs1 Ext1 Sv Md.
  destruct (eq_empty_list ids); [apply wp_ret; finish|].
  destruct (eq_empty_dict fs); [apply wp_ret; finish|].
  unfold execute_kw. apply wp_try, wp_bind, wp_bind, wp_get_uid, wp_rpc.
  intros [v|e] Ha; simpl; apply wp_ret; finish.
Qed.

Lemma delete_record_post self n ids w : wp (delete_record self n ids) w (method_post w).
Proof.
  unfold delete_record. destruct n as [name|]; [destruct (str_truthy (Some name))|];
    try nameless.
  enter self c w1 evs1 Ext1 Sv Md.
  destruct (eq_empty_list ids); [apply wp_ret; finish|].
  unfold execute_kw. apply wp_try, wp_bind, wp_bind, wp_get_uid, wp_rpc.
  intros [v|e] Ha; simpl.
  - destruct (py_len ids); [apply wp_ret|apply wp_raise; simpl; apply wp_ret]; finish.
  - apply wp_ret; finish.
Qed.

Lemma create_model_post self n fs w : wp (create_model self n fs) w (method_post w).
Proof.
  unfold create_model. destruct n as [name|]; [destruct (str_truthy (Some name))|];
    try nameless.
  enter self c w1 evs1 Ext1 Sv Md.
  destruct fs as [v|locs]; [apply wp_ret; finish|].
  unfold execute_kw. apply wp_bind, wp_try, wp_bind, wp_bind, wp_get_uid, wp_rpc.
  intros [id|e] Ha; simpl; apply wp_ret; simpl; [|apply wp_ret; finish].
  destruct (truthy id); simpl; [|apply wp_ret; finish].
  destruct locs as [|l locs]; [apply wp_ret; finish|].
  apply wp_bind. eapply wp_mono; [apply field_loop_spec|].
  intros [[env|fields]|ex] w2 (evs2 & Ext2 & H2); simpl.
  - destruct H2 as (He & Hv). apply wp_ret. eexists. split; [ext|].
    rewrite He, Hv. split; intros ?; [reflexivity|discriminate].
  - subst evs2. apply wp_try, wp_bind, wp_bind, wp_get_uid, wp_rpc.
    intros [v|e] Hb; simpl; [apply wp_ret; finish|].
    apply wp_bind, wp_bind, wp_get_uid, wp_rpc.
    intros [v|e'] Hc'; simpl; [apply wp_ret; finish|finish].
  - finish.
Qed.

Lemma perform_post self c w : wp (perform self c) w (method_post w).
Proof.
  destruct c; simpl.
  - apply get_ids_post.
  - apply get_records_post.
  - apply get_count_post.
  - apply get_fields_post.
  - apply create_record_post.
  - apply update_record_post.
  - apply delete_record_post.
  - apply create_model_post.
Qed.

(** ** The result envelope (C3) *)

(** the value of a server that never answers by null *)
Lemma answer_not_null w w1 r v :
  never_null w -> server w1 = server w -> server w1 (trace w1) r = Ok v -> v <> PNone.
Proof. intros Hnn S Ha ->. rewrite S in Ha. exact (Hnn _ _ Ha). Qed.

(** the guard on the model name and the access check, for [shape_post];
    what is left is the method's own part, with the proxy there *)
Ltac shape_enter c w1 S1 :=
  let Err1 := fresh "Err" in let Suc := fresh "Suc" in
  let Ht := fresh "Ht" in let Hc := fresh "Hc" in let Md := fresh "Md" in
  apply wp_bind; eapply wp_mono; [apply check_model_access_spec|];
  intros [c|?] w1 (? & (_ & (S1 & _) & _ & Err1) & Suc); simpl; [|exact I];
  destruct (str_truthy (cur_error c)) eqn:Ht;
  [ apply wp_ret; split;
    [ reflexivity | intros Hc; simpl in Hc; rewrite Hc in Ht; discriminate Ht ]
  | assert (Hc : cur_error c = None)
      by (destruct (Err1 eq_refl) as [|Hc]; [assumption | congruence]);
    destruct (Suc Hc) as (_ & Md); simpl in Md; rewrite ?Md ].

(** a returned dictionary with an error and the empty result *)
Ltac shape_error := split; [reflexivity | discriminate].

(** a returned dictionary without an error *)
Ltac shape_success := split; [intros Hne; exfalso; apply Hne; reflexivity|].

(** the own call of a method whose result is the value of the server *)
Ltac shape_value :=
  unfold execute_kw; apply wp_try, wp_bind, wp_bind, wp_get_uid, wp_rpc;
  intros [?v|?f] ?Ha; simpl; apply wp_ret;
  [ shape_success; intros _ ?Hnn; simpl in *; eapply answer_not_null; eassumption
  | shape_error ].

Lemma get_ids_shape self n f o l w :
  wp (get_ids self n f o l) w (shape_post (GetIds n f o l) w).
Proof.
  unfold get_ids. destruct n as [name|]; [destruct (str_truthy (Some name))|];
    try (apply wp_ret; shape_error).
  shape_enter c w1 S1. shape_value.
Qed.

Lemma get_records_shape self n f o l fs w :
  wp (get_records self n f o l fs) w (shape_post (GetRecords n f o l fs) w).
Proof.
  unfold get_records. destruct n as [name|]; [destruct (str_truthy (Some name))|];
    try (apply wp_ret; shape_error).
  shape_enter c w1 S1. shape_value.
Qed.

Lemma get_count_shape self n f w :
  wp (get_count self n f) w (shape_post (GetCount n f) w).
Proof.
  unfold get_count. destruct n as [name|]; [destruct (str_truthy (Some name))|];
    try (apply wp_ret; shape_error).
  shape_enter c w1 S1. shape_value.
Qed.

Lemma get_fields_shape self n a w :
  wp (get_fields self n a) w (shape_post (GetFields n a) w).
Proof.
  unfold get_fields. destruct n as [name|]; [destruct (str_truthy (Some name))|];
    try (apply wp_ret; shape_error).
  shape_enter c w1 S1. shape_value.
Qed.

Lemma create_record_shape self n fs w :
  wp (create_record self n fs) w (shape_post (CreateRecord n fs) w).
Proof.
  unfold create_record. destruct n as [name|]; [destruct (str_truthy (Some name))|];
    try (apply wp_ret; shape_error).
  shape_enter c w1 S1. shape_value.
Qed.

(** a list that is not the empty list is echoed as a populated result *)
Lemma update_record_shape self n ids fs w :
  wp (update_record self n ids fs) w (shape_post (UpdateRecord n ids fs) w).
Proof.
  unfold update_record. destruct n as [name|]; [destruct (str_truthy (Some name))|];
    try (apply wp_ret; shape_error).
  shape_enter c w1 S1.
  destruct (eq_empty_list ids) eqn:Hi; [apply wp_ret; shape_error|].
  assert (Hids : shape_post (UpdateRecord (Some name) ids fs) w
                            (Ret (Envelope None "ids" ids)) w1).
  { shape_success. intros _ Hwt. simpl in *.
    destruct ids; try discriminate Hwt. discriminate. }
  destruct (eq_empty_dict fs); [apply wp_ret; exact Hids|].
  unfold execute_kw. apply wp_try, wp_bind, wp_bind, wp_get_uid, wp_rpc.
  intros [v|e] Ha; simpl; apply wp_ret; [exact Hids|shape_error].
Qed.

(** the count of a list that is not the empty list is not zero *)
Lemma delete_record_shape self n ids w :
  wp (delete_record self n ids) w (shape_post (DeleteRecord n ids) w).
Proof.
  unfold delete_record. destruct n as [name|]; [destruct (str_truthy (Some name))|];
    try (apply wp_ret; shape_error).
  shape_enter c w1 S1.
  destruct (eq_empty_list ids) eqn:Hi; [apply wp_ret; shape_error|].
  unfold execute_kw. apply wp_try, wp_bind, wp_bind, wp_get_uid, wp_rpc.
  intros [v|e] Ha; simpl; [|apply wp_ret; shape_error].
  destruct (py_len ids) as [k|] eqn:Hk;
    [apply wp_ret|apply wp_raise; simpl; apply wp_ret; shape_error].
  shape_success. intros _ Hwt. simpl in *.
  destruct ids as [| | | |[|y0 l]|]; try discriminate Hwt; try discriminate Hi.
  injection Hk as <-. discriminate.
Qed.

(** the identifier that is returned went through [if not id] *)
Lemma create_model_shape self n fs w :
  wp (create_model self n fs) w (shape_post (CreateModel n fs) w).
Proof.
  unfold create_model. destruct n as [name|]; [destruct (str_truthy (Some name))|];
    try (apply wp_ret; shape_error).
  shape_enter c w1 S1.
  destruct fs as [v|locs]; [apply wp_ret; shape_error|].
  unfold execute_kw. apply wp_bind, wp_try, wp_bind, wp_bind, wp_get_uid, wp_rpc.
  intros [id|e] Ha; simpl; apply wp_ret; simpl; [|apply wp_ret; shape_error].
  destruct (truthy id) eqn:Hid; simpl; [|apply wp_ret; shape_error].
  assert (Hok : forall w', shape_post (CreateModel (Some name) (ListOf locs)) w
                                      (Ret (Envelope None "id" id)) w').
  { intros w'. shape_success. intros _ _. simpl. intros ->. discriminate Hid. }
  destruct locs as [|l0 locs]; [apply wp_ret; apply (Hok w)|].
  apply wp_bind. eapply wp_mono; [apply field_loop_spec|].
  intros [[early|fields]|ex] w2 (evs2 & _ & H2); simpl.
  - destruct H2 as (He & Hv). apply wp_ret. split.
    + intros _. exact Hv.
    + intros Hnone. rewrite He in Hnone. discriminate Hnone.
  - apply wp_try, wp_bind, wp_bind, wp_get_uid, wp_rpc.
    intros [v|e] Hb; simpl; [apply wp_ret; apply (Hok w)|].
    apply wp_bind, wp_bind, wp_get_uid, wp_rpc.
    intros [v|e'] Hc'; simpl; [apply wp_ret; shape_error|exact I].
  - exact I.
Qed.

Lemma perform_shape self c w : wp (perform self c) w (shape_post c w).
Proof.
  destruct c; simpl.
  - apply get_ids_shape.
  - apply get_records_shape.
  - apply get_count_shape.
  - apply get_fields_shape.
  - apply create_record_shape.
  - apply update_record_shape.
  - apply delete_record_shape.
  - apply create_model_shape.
Qed.

(** C3, as stated, fails: with [ids = None] and the empty mapping,
    [update_record] echoes its argument and returns
    [{'error': None, 'ids': None}], where neither the error is present nor
    the primary result populated. *)
Lemma update_record_echoes_null :
  fst (perform with_db (UpdateRecord (Some "res.partner") PNone (PDict []))
               (fresh friendly []))
  = Ret (Envelope None "ids" PNone) /\
  ~ exactly_one (UpdateRecord (Some "res.partner") PNone (PDict []))
                (Envelope None "ids" PNone).
Proof.
  split; [reflexivity|].
  intros [(H & _)|(_ & H)]; [apply H; reflexivity | apply H; reflexivity].
Qed.

(** C3, amended: for every public method and every input, a returned
    dictionary with an error has the null primary result (zero for
    [delete_record]), and one without an error comes from a run in which
    every object call was answered by a value and every access check by a
    true one.  In the well-formed cases exactly one of the two holds: the
    error is present, or the primary result is populated (not null; for
    [delete_record] not zero).  The well-formed cases are: for
    [update_record] and [delete_record], the argument [ids] is a list;
    for [create_model], all; for the other methods, the server never
    answers by null. *)
Theorem envelope_shape self c w env w' :
  perform self c w = (Ret env, w') ->
  (error env <> None -> value env = empty_result c) /\
  (error env = None -> exists evs, trace w' = trace w ++ evs /\ all served evs) /\
  (well_formed c w -> exactly_one c env).
Proof.
  intros E.
  destruct (wp_run _ _ _ _ _ (perform_post self c w) E) as (evs & Ext & _ & H2).
  destruct (wp_run _ _ _ _ _ (perform_shape self c w) E) as (S1 & S2).
  split; [exact S1|]. split.
  - intros H. exists evs. split; [apply Ext | exact (H2 H)].
  - intros Hwf. unfold exactly_one. destruct (error env) as [e|] eqn:He.
    + left. split; [discriminate|]. intros Hp. apply Hp, S1. discriminate.
    + right. split; [reflexivity|]. apply S2; auto.
Qed.

(** the sample server that grants everything never answers by null *)
Lemma friendly_never_null objects : never_null (fresh friendly objects).
Proof.
  intros history [u|u|u d usr pw|u d i pw m method args kw]; simpl; try discriminate.
  destruct (String.eqb method "create"); [discriminate|].
  destruct (String.eqb method "search_count"); discriminate.
Defined.

Lemma envelope_shape_witness :
  (error (Envelope None "count" (PInt 0)) <> None ->
   value (Envelope None "count" (PInt 0))
   = empty_result (GetCount (Some "res.partner") (PList []))) /\
  (error (Envelope None "count" (PInt 0)) = None ->
   exists evs,
     trace (snd (perform with_db (GetCount (Some "res.partner") (PList []))
                         (fresh friendly [])))
     = trace (fresh friendly []) ++ evs /\ all served evs) /\
  exactly_one (GetCount (Some "res.partner") (PList []))
              (Envelope None "count" (PInt 0)).
Proof.
  destruct (envelope_shape with_db (GetCount (Some "res.partner") (PList []))
                           (fresh friendly []) _ _ eq_refl) as (H1 & H2 & H3).
  split; [exact H1|]. split; [exact H2|].
  exact (H3 (friendly_never_null [])).
Defined.

(** ** The cached session id (C10) *)

(** C10, as stated, fails: after a first call that authenticated with
    session id 7 and a second call whose authentication faulted, the
    stored id is still 7, though the last authentication attempt issued
    nothing. *)
Lemma stale_session_id :
  let count := get_count with_db (Some "res.partner") (PList []) in
  let w2 := snd (count (snd (count (fresh expiring [])))) in
  uid w2 = PInt 7 /\
  last_attempt (trace w2)
  = Some (Authenticate "http://odoo.example.com/xmlrpc/2/common"
                       (PStr "prod") (PStr "admin") (PStr "secret"),
          Fault "Fault(1, 'Access Denied')").
Proof. split; vm_compute; reflexivity. Qed.

(** C10, amended: [self.uid] is assigned by every authentication that
    returns and by nothing else.  After any public method the stored id
    is the one issued by the last authentication of that run that
    returned; if none did, it is the value from before the call. *)
Theorem session_id_tracks self c w o w' :
  perform self c w = (o, w') ->
  exists evs, trace w' = trace w ++ evs /\ uid w' = default (uid w) (issued evs).
Proof.
  intros E. destruct (wp_run _ _ _ _ _ (perform_post self c w) E) as (evs & Ext & _).
  exists evs. split; apply Ext.
Qed.

Lemma session_id_tracks_witness :
  let w := fresh friendly [] in
  let r := perform with_db (GetCount (Some "res.partner") (PList [])) w in
  exists evs, trace (snd r) = trace w ++ evs /\ uid (snd r) = default (uid w) (issued evs).
Proof.
  exact (session_id_tracks with_db (GetCount (Some "res.partner") (PList []))
                           (fresh friendly []) _ _ eq_refl).
Defined.

(** ** The access check on a fault (C4) *)

(** a check answered by a false value ends the loop: no right after it
    is checked (the [break] of the denial branch) *)
Lemma access_loop_stops_on_denial self mod_ db name r rest err model w v :
  server w (trace w)
         (ExecuteKw mod_ db (uid w) (password self) name "check_access_rights"
                    [PStr r] (Some [("raise_exception", PBool false)])) = Ok v ->
  truthy v = false ->
  access_loop self mod_ db name (r :: rest) err model w
  = (Ret (Some (AccessDenied r), model),
     log w (ExecuteKw mod_ db (uid w) (password self) name "check_access_rights"
                      [PStr r] (Some [("raise_exception", PBool false)])) (Ok v)).
Proof.
  intros Ha Hv. simpl. unfold bind, try, get_uid, rpc, ret. simpl.
  rewrite Ha. simpl. rewrite Hv. reflexivity.
Qed.

(** C4: the code goes on after a check that raised.  With the rights
    [read] and [create], on a server whose check of [read] faults, the
    right [create] is still checked, and the error returned is the one of
    the fault. *)
Theorem check_goes_on_after_fault :
  let r := _check_model_access with_db "res.partner" ["read"; "create"]
                               (fresh read_faults []) in
  rights_checked (trace (snd r))
  = [(PStr "read", Fault "Fault(3, 'Access Denied')");
     (PStr "create", Ok (PBool true))] /\
  fst r = Ret (Cursor (Some InvalidCredentials)
                      (Some "http://odoo.example.com/xmlrpc/2/object") (PStr "prod")).
Proof. split; vm_compute; reflexivity. Qed.

(** ** The default name of a new record (C5) *)

(** the name is synthesized only for [fields == []], and then sent as a
    list holding the mapping *)
Lemma create_record_empty_list_name :
  last_args "create"
            (trace (snd (create_record with_db (Some "product.template") (PList [])
                                       (fresh friendly []))))
  = Some [PList [PDict [("name", PStr "New Product")]]].
Proof. vm_compute. reflexivity. Qed.

(** C5: with the empty mapping [{}] for [fields] (also the default of the
    parameter) the test [fields == []] is false, no name is synthesized
    and the remote [create] receives the empty mapping. *)
Theorem create_record_sends_no_name :
  last_args "create"
            (trace (snd (create_record with_db (Some "product.template") (PDict [])
                                       (fresh friendly []))))
  = Some [PDict []].
Proof. vm_compute. reflexivity. Qed.

(** ** Faults that leave a method (C9) *)

(** With a database configured the listing call is never made, and then
    every call wrapped in a [try] is all there is up to the compensating
    [unlink] of [create_model]. *)
Lemma authenticate_returns self w :
  str_truthy (db self) = true -> wp (_authenticate self) w returns.
Proof.
  intros Hdb. unfold _authenticate, _create_connection.
  apply wp_bind, wp_try, wp_bind, wp_rpc. intros [ver|f] _; simpl.
  - apply wp_ret. simpl. destruct (db self) as [name|]; [|discriminate Hdb].
    rewrite Hdb. apply wp_bind, wp_try, wp_bind, wp_login.
    intros [u|f] _; simpl; apply wp_ret; simpl; apply wp_ret; eexists; reflexivity.
  - apply wp_ret. simpl. apply wp_bind, wp_ret. simpl. apply wp_ret.
    eexists; reflexivity.
Qed.

Lemma check_model_access_returns self name scope w :
  str_truthy (db self) = true -> wp (_check_model_access self name scope) w returns.
Proof.
  intros Hdb. unfold _check_model_access. apply wp_bind.
  eapply wp_mono; [apply (authenticate_returns self w Hdb)|].
  intros o w1 (auth & ->). apply wp_bind.
  destruct (auth_error auth).
  - apply wp_ret. simpl. apply wp_ret. eexists; reflexivity.
  - eapply wp_mono; [apply access_loop_spec; left; reflexivity|].
    intros o w2 (evs & err' & model' & -> & _). apply wp_ret. eexists; reflexivity.
Qed.

(** the guard on the model name and the access check, for [returns] *)
Ltac enter_returns Hdb :=
  apply wp_bind; eapply wp_mono; [apply check_model_access_returns, Hdb|];
  intros ? ? (? & ->); simpl.

(** the method's own call in its [try] *)
Ltac own_call :=
  unfold execute_kw;
  lazymatch goal with
  | |- context [match ?m with Some _ => _ | None => _ end] => destruct m
  end;
  [ apply wp_try, wp_bind, wp_bind, wp_get_uid, wp_rpc; intros [?|?] _; simpl
  | apply wp_try, wp_bind, wp_raise; simpl ];
  try (apply wp_ret; eexists; reflexivity).

Lemma configured_db_returns self c w :
  str_truthy (db self) = true -> no_compensation c = true ->
  wp (perform self c) w returns.
Proof.
  intros Hdb Hc.
  destruct c as [n ? ? ?|n ? ? ? ?|n ?|n ?|n ?|n ids fs|n ids|n fs]; simpl;
    (destruct n as [name|]; [destruct (str_truthy (Some name)) eqn:Hn|]);
    try (cbv [get_ids get_records get_count get_fields create_record update_record
                      delete_record create_model];
         rewrite ?Hn; apply wp_ret; eexists; reflexivity).
  - unfold get_ids. rewrite Hn. enter_returns Hdb.
    destruct (str_truthy (cur_error _)); [apply wp_ret; eexists; reflexivity|]. own_call.
  - unfold get_records. rewrite Hn. enter_returns Hdb.
    destruct (str_truthy (cur_error _)); [apply wp_ret; eexists; reflexivity|]. own_call.
  - unfold get_count. rewrite Hn. enter_returns Hdb.
    destruct (str_truthy (cur_error _)); [apply wp_ret; eexists; reflexivity|]. own_call.
  - unfold get_fields. rewrite Hn. enter_returns Hdb.
    destruct (str_truthy (cur_error _)); [apply wp_ret; eexists; reflexivity|]. own_call.
  - unfold create_record. rewrite Hn. enter_returns Hdb.
    destruct (str_truthy (cur_error _)); [apply wp_ret; eexists; reflexivity|]. own_call.
  - unfold update_record. rewrite Hn. enter_returns Hdb.
    destruct (str_truthy (cur_error _)); [apply wp_ret; eexists; reflexivity|].
    destruct (eq_empty_list ids); [apply wp_ret; eexists; reflexivity|].
    destruct (eq_empty_dict fs); [apply wp_ret; eexists; reflexivity|]. own_call.
  - unfold delete_record. rewrite Hn. enter_returns Hdb.
    destruct (str_truthy (cur_error _)); [apply wp_ret; eexists; reflexivity|].
    destruct (eq_empty_list ids); [apply wp_ret; eexists; reflexivity|]. own_call.
    destruct (py_len ids); [|apply wp_raise; simpl]; apply wp_ret; eexists; reflexivity.
  - unfold create_model. rewrite Hn. enter_returns Hdb.
    destruct (str_truthy (cur_error _)); [apply wp_ret; eexists; reflexivity|].
    destruct fs as [v|[|l locs]]; [apply wp_ret; eexists; reflexivity| |discriminate Hc].
    apply wp_bind. unfold execute_kw.
    destruct (cur_model _).
    + apply wp_try, wp_bind, wp_bind, wp_get_uid, wp_rpc. intros [id|f] _; simpl.
      * apply wp_ret. simpl.
        destruct (negb (truthy id)); apply wp_ret; eexists; reflexivity.
      * apply wp_ret. simpl. apply wp_ret. eexists; reflexivity.
    + apply wp_try, wp_bind, wp_raise. simpl. apply wp_ret. simpl. apply wp_ret.
      eexists; reflexivity.
Qed.

(** C9: a fault of a compensating [unlink] of [create_model] leaves the
    method as an exception, on the path of a descriptor that is not a
    mapping and on the path of a failed creation of the fields. *)
Theorem compensating_unlink_fault_escapes :
  fst (create_model with_db (Some "My Model") (ListOf [0]) (fresh unlink_faults [PInt 5]))
  = Raise (Exn "ProtocolError('connection reset')") /\
  fst (create_model with_db (Some "My Model") (ListOf [0]) (fresh hostile [PDict []]))
  = Raise (Exn "ProtocolError('connection reset')").
Proof. split; vm_compute; reflexivity. Qed.

(** ** Deleting and updating records (C7, C8) *)

Lemma access_is_not method evs :
  String.eqb "check_access_rights" method = false ->
  all access_event evs -> all (not_method method) evs.
Proof.
  intros Hm. apply all_weaken. intros ev. unfold access_event, not_method.
  destruct (method_of ev) as [m|]; [|reflexivity].
  intros H. apply String.eqb_eq in H. subst m. rewrite Hm. reflexivity.
Qed.

(** what a granted access check leaves behind *)
Lemma access_granted self name r scope w c w1 :
  _check_model_access self name (r :: scope) w = (Ret c, w1) ->
  cur_error c = None ->
  cur_model c = Some (object_url self) /\ store w1 = store w /\
  exists evs, extends w evs w1 /\ all access_event evs /\ all served evs.
Proof.
  intros E Hc.
  destruct (wp_run _ _ _ _ _ (check_model_access_spec self name (r :: scope) w) E)
    as (evs & (St & Ext & Acc & _) & Suc).
  destruct (Suc Hc) as (Sv & Md). split; [exact Md|]. split; [exact St|].
  exists evs. auto.
Qed.

(** with no ids, whatever the model name and the server, no [unlink] is
    called and the envelope carries an error and the count 0 *)
Lemma delete_record_empty self n w :
  wp (delete_record self n (PList [])) w (fun o w' =>
    exists evs, extends w evs w' /\ all (not_method "unlink") evs /\
      forall env, o = Ret env -> error env <> None /\ value env = PInt 0).
Proof.
  unfold delete_record. destruct n as [name|]; [destruct (str_truthy (Some name))|];
    try (apply wp_ret; exists []; split; [ext|]; split; [alls|];
         intros env [= <-]; split; [discriminate|reflexivity]).
  apply wp_bind. eapply wp_mono; [apply check_model_access_spec|].
  intros [c|ex] w1 (evs1 & (St1 & Ext1 & Acc1 & Err1) & Suc); simpl.
  - apply (access_is_not "unlink" _ eq_refl) in Acc1.
    destruct (str_truthy (cur_error c)) eqn:Ht; apply wp_ret;
      exists evs1; (split; [ext|]); (split; [alls|]); intros env [= <-]; simpl;
      (split; [|reflexivity]).
    + apply truthy_error_some, Ht.
    + discriminate.
  - apply (access_is_not "unlink" _ eq_refl) in Acc1.
    exists evs1. split; [ext|]. split; [alls|]. discriminate.
Qed.

(** C7: [delete_record] with an empty id list never calls [unlink] and
    returns an error with count 0, which is the validation error once the
    model name is given and access is granted; with [N] ids, access
    granted and an [unlink] that returns, the count is [N], whatever value
    the server returned. *)
Theorem delete_record_count self name w c w1 :
  str_truthy (Some name) = true ->
  _check_model_access self name ["read"; "unlink"] w = (Ret c, w1) ->
  cur_error c = None ->
  let unlink ids :=
    ExecuteKw (object_url self) (cur_db c) (uid w1) (password self) name "unlink"
              [PList ids] None in
  (forall n0 w0,
      exists evs, trace (snd (delete_record self n0 (PList []) w0)) = trace w0 ++ evs /\
                  all (not_method "unlink") evs /\
                  forall env, fst (delete_record self n0 (PList []) w0) = Ret env ->
                              error env <> None /\ value env = PInt 0) /\
  delete_record self (Some name) (PList []) w
  = (Ret (Envelope (Some NoRecordsToDelete) "count" (PInt 0)), w1) /\
  forall x ids v,
    server w1 (trace w1) (unlink (x :: ids)) = Ok v ->
    delete_record self (Some name) (PList (x :: ids)) w
    = (Ret (Envelope None "count" (PInt (Z.of_nat (length (x :: ids))))),
       log w1 (unlink (x :: ids)) (Ok v)).
Proof.
  intros Hn E Hc unlink.
  destruct (access_granted _ _ _ _ _ _ _ E Hc) as (Md & _).
  split; [|split].
  - intros n0 w0. destruct (delete_record_empty self n0 w0) as (evs & Ext & Nu & H).
    exists evs. split; [apply Ext|]. split; [exact Nu|exact H].
  - unfold delete_record. rewrite Hn. unfold bind. rewrite E, Hc. reflexivity.
  - intros x ids v Ha. unfold delete_record. rewrite Hn. unfold bind at 1.
    rewrite E, Hc. simpl. rewrite Md.
    unfold try, execute_kw, bind, get_uid, rpc. fold (unlink (x :: ids)).
    rewrite Ha. reflexivity.
Qed.

Lemma delete_record_count_witness :
  let w := fresh friendly [] in
  let c := Cursor None (Some "http://odoo.example.com/xmlrpc/2/object") (PStr "prod") in
  let w1 := snd (_check_model_access with_db "res.partner" ["read"; "unlink"] w) in
  delete_record with_db (Some "res.partner") (PList []) w
  = (Ret (Envelope (Some NoRecordsToDelete) "count" (PInt 0)), w1) /\
  delete_record with_db (Some "res.partner") (PList [PInt 4; PInt 5; PInt 6]) w
  = (Ret (Envelope None "count" (PInt 3)),
     log w1 (ExecuteKw "http://odoo.example.com/xmlrpc/2/object" (PStr "prod") (PInt 7)
                       (PStr "secret") "res.partner" "unlink"
                       [PList [PInt 4; PInt 5; PInt 6]] None) (Ok (PBool true))).
Proof.
  intros w c w1.
  destruct (delete_record_count with_db "res.partner" w c w1 eq_refl eq_refl eq_refl)
    as (_ & H0 & HN).
  split; [exact H0|].
  exact (HN (PInt 4) [PInt 5; PInt 6] (PBool true) eq_refl).
Defined.

(** with no ids, or with ids and the empty mapping, whatever the model
    name and the server, no [write] is called *)
Lemma update_record_no_write self n ids fs w :
  eq_empty_list ids = true \/ eq_empty_dict fs = true ->
  wp (update_record self n ids fs) w (fun o w' =>
    exists evs, extends w evs w' /\ all (not_method "write") evs).
Proof.
  intros Hin. unfold update_record.
  destruct n as [name|]; [destruct (str_truthy (Some name))|];
    try (apply wp_ret; exists []; split; [ext|alls]).
  apply wp_bind. eapply wp_mono; [apply check_model_access_spec|].
  intros [c|ex] w1 (evs1 & (St1 & Ext1 & Acc1 & Err1) & Suc); simpl;
    apply (access_is_not "write" _ eq_refl) in Acc1.
  - destruct (str_truthy (cur_error c)); [apply wp_ret; exists evs1; split; [ext|alls]|].
    destruct (eq_empty_list ids) eqn:Hi; [apply wp_ret; exists evs1; split; [ext|alls]|].
    destruct Hin as [Hin|Hin]; [discriminate|]. rewrite Hin.
    apply wp_ret. exists evs1. split; [ext|alls].
  - exists evs1. split; [ext|alls].
Qed.

(** C8: once the model name is given and access is granted,
    [update_record] with ids and the empty mapping returns the ids with no
    error, and with no ids the validation error; in neither case, under
    any model name and server, is [write] called. *)
Theorem update_record_short_cuts self name w c w1 :
  str_truthy (Some name) = true ->
  _check_model_access self name ["read"; "write"] w = (Ret c, w1) ->
  cur_error c = None ->
  (forall n0 ids fs w0,
      eq_empty_list ids = true \/ eq_empty_dict fs = true ->
      exists evs, trace (snd (update_record self n0 ids fs w0)) = trace w0 ++ evs /\
                  all (not_method "write") evs) /\
  (forall x ids,
      update_record self (Some name) (PList (x :: ids)) (PDict []) w
      = (Ret (Envelope None "ids" (PList (x :: ids))), w1)) /\
  (forall fs,
      update_record self (Some name) (PList []) fs w
      = (Ret (Envelope (Some NoRecordsToUpdate) "ids" PNone), w1)).
Proof.
  intros Hn E Hc. split; [|split].
  - intros n0 ids fs w0 Hin.
    destruct (update_record_no_write self n0 ids fs w0 Hin) as (evs & Ext & Nw).
    exists evs. split; [apply Ext|exact Nw].
  - intros x ids. unfold update_record. rewrite Hn. unfold bind. rewrite E, Hc. reflexivity.
  - intros fs. unfold update_record. rewrite Hn. unfold bind. rewrite E, Hc. reflexivity.
Qed.

Lemma update_record_short_cuts_witness :
  let w := fresh friendly [] in
  let w1 := snd (_check_model_access with_db "res.partner" ["read"; "write"] w) in
  update_record with_db (Some "res.partner") (PList [PInt 4; PInt 5]) (PDict []) w
  = (Ret (Envelope None "ids" (PList [PInt 4; PInt 5])), w1) /\
  update_record with_db (Some "res.partner") (PList []) (PDict [("name", PStr "n")]) w
  = (Ret (Envelope (Some NoRecordsToUpdate) "ids" PNone), w1).
Proof.
  intros w w1.
  destruct (update_record_short_cuts with_db "res.partner" w
              (Cursor None (Some "http://odoo.example.com/xmlrpc/2/object") (PStr "prod"))
              w1 eq_refl eq_refl eq_refl)
    as (_ & H1 & H2).
  split; [exact (H1 (PInt 4) [PInt 5]) | exact (H2 (PDict [("name", PStr "n")]))].
Defined.

(** ** Authentication over the databases of the server (C2) *)

Lemma wp_elim {A} (m : M A) w Phi :
  wp m w Phi -> exists o w', m w = (o, w') /\ Phi o w'.
Proof. unfold wp. intros H. exists (fst (m w)), (snd (m w)). split; [|exact H]. destruct (m w); reflexivity. Qed.

(** a remote call whose answer is known *)
Ltac answered H := apply wp_rpc; intros ? <-; rewrite H; simpl.

(** C2: with no database configured, a server that answers the version
    call and lists the databases [dbs]: on an empty list the error is
    that no database exists; otherwise the databases are tried in the
    order of the list, up to and including the first whose authentication
    returns, which is then the database connected to, with no error; if
    every attempt faults, all were tried and the error is the
    authentication error set by the last of them. *)
Theorem authenticate_enumerates self w ver dbs :
  str_truthy (db self) = false ->
  server w (trace w) (Version (common_url self)) = Ok ver ->
  let w1 := log w (Version (common_url self)) (Ok ver) in
  server w1 (trace w1) (ListDb (db_url self)) = Ok (PList dbs) ->
  let w2 := log w1 (ListDb (db_url self)) (Ok (PList dbs)) in
  exists res w' attempts,
    _authenticate self w = (Ret res, w') /\ trace w' = trace w2 ++ attempts /\
    ((dbs = [] /\ attempts = [] /\
      res = AuthResult (Some NoDatabaseError) PNone /\ uid w' = uid w)
     \/ (exists pre d post u fl,
            dbs = pre ++ d :: post /\ Forall2 (failed_attempt self) pre fl /\
            attempts = fl ++ [attempt_ok self d u] /\
            res = AuthResult None d /\ uid w' = u)
     \/ (dbs <> [] /\ Forall2 (failed_attempt self) dbs attempts /\
         res = AuthResult (Some AuthError) PNone /\ uid w' = uid w)).
Proof.
  intros Hdb Hver w1 Hlist w2.
  assert (Any : wp (let! (error, connected_db) :=
                      auth_any_db self (Some (common_url self)) None PNone in
                    if str_truthy error then ret (AuthResult error connected_db)
                    else ret (AuthResult None connected_db)) w1
                   (fun o w' => exists res attempts,
                      o = Ret res /\ trace w' = trace w2 ++ attempts /\
                      ((dbs = [] /\ attempts = [] /\
                        res = AuthResult (Some NoDatabaseError) PNone /\ uid w' = uid w)
                       \/ (exists pre d post u fl,
                              dbs = pre ++ d :: post /\
                              Forall2 (failed_attempt self) pre fl /\
                              attempts = fl ++ [attempt_ok self d u] /\
                              res = AuthResult None d /\ uid w' = u)
                       \/ (dbs <> [] /\ Forall2 (failed_attempt self) dbs attempts /\
                           res = AuthResult (Some AuthError) PNone /\ uid w' = uid w)))).
  { apply wp_bind. unfold auth_any_db, _get_db_name. apply wp_bind. answered Hlist.
    fold w2. destruct dbs as [|d0 dbs0]; cbn [eq_empty_list negb py_iter].
    - apply wp_ret. simpl. apply wp_ret. exists (AuthResult (Some NoDatabaseError) PNone), [].
      split; [reflexivity|]. split; [symmetry; apply app_nil_r|]. left. auto.
    - eapply wp_mono; [apply auth_loop_spec|].
      intros o w' (St & evs & Ext & Acc & Cases).
      destruct Cases as [(pre & d & post & u & fl & Hd & F & -> & -> & U)|(F & U & ->)];
        simpl; apply wp_ret.
      + exists (AuthResult None d), (fl ++ [attempt_ok self d u]).
        split; [reflexivity|]. split; [apply Ext|]. right. left.
        exists pre, d, post, u, fl. auto.
      + exists (AuthResult (Some AuthError) PNone), evs.
        split; [reflexivity|]. split; [apply Ext|]. right. right.
        split; [discriminate|]. auto. }
  cut (wp (_authenticate self) w (fun o w' => exists res attempts,
         o = Ret res /\ trace w' = trace w2 ++ attempts /\
         ((dbs = [] /\ attempts = [] /\
           res = AuthResult (Some NoDatabaseError) PNone /\ uid w' = uid w)
          \/ (exists pre d post u fl,
                 dbs = pre ++ d :: post /\ Forall2 (failed_attempt self) pre fl /\
                 attempts = fl ++ [attempt_ok self d u] /\
                 res = AuthResult None d /\ uid w' = u)
          \/ (dbs <> [] /\ Forall2 (failed_attempt self) dbs attempts /\
              res = AuthResult (Some AuthError) PNone /\ uid w' = uid w)))).
  { intros H. destruct (wp_elim _ _ _ H) as (o & w' & E & res & attempts & -> & T & C).
    exists res, w', attempts. auto. }
  unfold _authenticate, _create_connection.
  apply wp_bind, wp_try, wp_bind. answered Hver. apply wp_ret. simpl.
  destruct (db self) as [name|]; [rewrite Hdb|]; exact Any.
Qed.

Lemma authenticate_enumerates_witness :
  let self := without_db in
  let w := fresh picky [] in
  let dbs := [PStr "db1"; PStr "db2"; PStr "db3"] in
  let w1 := log w (Version (common_url self))
                (Ok (PDict [("server_version", PStr "14.0")])) in
  let w2 := log w1 (ListDb (db_url self)) (Ok (PList dbs)) in
  exists res w' attempts,
    _authenticate self w = (Ret res, w') /\ trace w' = trace w2 ++ attempts /\
    ((dbs = [] /\ attempts = [] /\
      res = AuthResult (Some NoDatabaseError) PNone /\ uid w' = uid w)
     \/ (exists pre d post u fl,
            dbs = pre ++ d :: post /\ Forall2 (failed_attempt self) pre fl /\
            attempts = fl ++ [attempt_ok self d u] /\
            res = AuthResult None d /\ uid w' = u)
     \/ (dbs <> [] /\ Forall2 (failed_attempt self) dbs attempts /\
         res = AuthResult (Some AuthError) PNone /\ uid w' = uid w)).
Proof.
  exact (authenticate_enumerates without_db (fresh picky [])
           (PDict [("server_version", PStr "14.0")])
           [PStr "db1"; PStr "db2"; PStr "db3"] eq_refl eq_refl eq_refl).
Defined.

(** on the server [picky] the second of three databases is connected to
    and the third is never tried *)
Lemma authenticate_picky :
  let r := _authenticate without_db (fresh picky []) in
  fst r = Ret (AuthResult None (PStr "db2")) /\
  map fst (filter (fun ev => is_authenticate ev = true) (trace (snd r)))
  = [Authenticate "http://odoo.example.com/xmlrpc/2/common" (PStr "db1")
                  (PStr "admin") (PStr "secret");
     Authenticate "http://odoo.example.com/xmlrpc/2/common" (PStr "db2")
                  (PStr "admin") (PStr "secret")].
Proof. split; vm_compute; reflexivity. Qed.

(** ** Dictionaries *)

Lemma dict_get_set_eq k v d : dict_get k (dict_set k v d) = Some v.
Proof.
  induction d as [|[k' v'] d IH]; simpl.
  - rewrite String.eqb_refl. reflexivity.
  - destruct (String.eqb k k') eqn:E; simpl; rewrite E; auto.
Qed.

Lemma dict_get_set_ne k k' v d :
  k <> k' -> dict_get k' (dict_set k v d) = dict_get k' d.
Proof.
  intros Hne. induction d as [|[k0 v0] d IH]; simpl.
  - destruct (String.eqb k' k) eqn:E; [|reflexivity].
    apply String.eqb_eq in E. congruence.
  - destruct (String.eqb k k0) eqn:E; simpl.
    + apply String.eqb_eq in E. subst k0.
      destruct (String.eqb k' k) eqn:E'; [|reflexivity].
      apply String.eqb_eq in E'. congruence.
    + destruct (String.eqb k' k0); auto.
Qed.

Lemma dict_set_keys k v v0 d :
  dict_get k d = Some v0 -> map fst (dict_set k v d) = map fst d.
Proof.
  induction d as [|[k' v'] d IH]; simpl; [discriminate|].
  destruct (String.eqb k k') eqn:E; simpl; [reflexivity|].
  intros H. rewrite (IH H). reflexivity.
Qed.

Lemma dict_get_absent k d : k ∉ map fst d -> dict_get k d = None.
Proof.
  induction d as [|[k' v'] d IH]; simpl; [reflexivity|].
  intros H. apply not_elem_of_cons in H as [Hne Hin].
  destruct (String.eqb k k') eqn:E; [|auto].
  apply String.eqb_eq in E. contradiction.
Qed.

(** [d.update(e)]: the keys of [e] win *)
Lemma dict_get_update k e : forall d,
  NoDup (map fst e) ->
  dict_get k (dict_update d e)
  = match dict_get k e with Some v => Some v | None => dict_get k d end.
Proof.
  unfold dict_update.
  induction e as [|[k1 v1] e IH]; intros d Hnd; simpl; [reflexivity|].
  apply NoDup_cons in Hnd as [Hk1 Hnd]. simpl in Hk1. rewrite (IH _ Hnd).
  destruct (String.eqb k k1) eqn:E.
  - apply String.eqb_eq in E. subst k1.
    rewrite (dict_get_absent _ _ Hk1). apply dict_get_set_eq.
  - destruct (dict_get k e); [reflexivity|].
    apply dict_get_set_ne. intros ->. rewrite String.eqb_refl in E. discriminate.
Qed.

(** ** The name check *)

Lemma with_prefix_other k d : k <> "name" -> dict_get k (with_prefix d) = dict_get k d.
Proof.
  intros Hne. unfold with_prefix.
  destruct (dict_get "name" d) as [[| | |n| |]|]; try reflexivity.
  destruct (negb (re_match_x n)); [|reflexivity].
  apply dict_get_set_ne. congruence.
Qed.

Lemma with_prefix_keys d : map fst (with_prefix d) = map fst d.
Proof.
  unfold with_prefix.
  destruct (dict_get "name" d) as [[| | |n| |]|] eqn:E; try reflexivity.
  destruct (negb (re_match_x n)); [|reflexivity].
  eapply dict_set_keys, E.
Qed.

Lemma with_prefix_no_name d :
  dict_get "name" d = None -> with_prefix d = d.
Proof. unfold with_prefix. intros ->. reflexivity. Qed.

(** after the check a string name is the name as found if it matches the
    pattern, and the name with [x_] before it otherwise *)
Lemma with_prefix_name d n :
  dict_get "name" d = Some (PStr n) ->
  dict_get "name" (with_prefix d)
  = Some (PStr (if re_match_x n then n else ("x_" ++ n)%string)).
Proof.
  unfold with_prefix. intros E. rewrite E.
  destruct (re_match_x n); simpl; [exact E|apply dict_get_set_eq].
Qed.

Lemma with_prefix_descriptor d :
  descriptor (PDict d) -> descriptor (PDict (with_prefix d)).
Proof.
  intros (d' & [= <-] & Hnd & Hname). exists (with_prefix d).
  split; [reflexivity|]. split; [rewrite with_prefix_keys; exact Hnd|].
  destruct Hname as [Hn|(n & Hn)].
  - left. rewrite (with_prefix_no_name _ Hn). exact Hn.
  - right. eexists. apply with_prefix_name, Hn.
Qed.

Lemma renamed_trans a b c : renamed a b -> renamed b c -> renamed a c.
Proof. intros Hab Hbc. induction Hbc; [exact Hab|constructor; assumption]. Qed.

Lemma renamed_other a b k : renamed a b -> k <> "name" -> dict_get k b = dict_get k a.
Proof.
  intros H Hne. induction H; [reflexivity|].
  rewrite with_prefix_other; assumption.
Qed.

Lemma renamed_no_name a b :
  renamed a b -> dict_get "name" a = None -> dict_get "name" b = None.
Proof.
  intros H Hn. induction H; [exact Hn|].
  rewrite with_prefix_no_name; assumption.
Qed.

Lemma renamed_descriptor a b :
  renamed a b -> descriptor (PDict a) -> descriptor (PDict b).
Proof. intros H Ha. induction H; [exact Ha|apply with_prefix_descriptor; assumption]. Qed.

(** a name that went through the check starts with [x_] *)
Lemma checked_name_prefixed n :
  x_prefixed (if re_match_x n then n else ("x_" ++ n)%string) = true.
Proof.
  destruct (re_match_x n) eqn:E.
  - destruct n as [|a n]; [discriminate E|].
    destruct a as [[] [] [] [] [] [] [] []]; try discriminate E.
    destruct n as [|b n]; [discriminate E|].
    destruct b as [[] [] [] [] [] [] [] []]; try discriminate E.
    reflexivity.
  - reflexivity.
Qed.

(** ** The loop over the descriptors *)

Lemma same_world w : World (server w) (trace w) (uid w) (store w) = w.
Proof. destruct w; reflexivity. Qed.

(** one descriptor: the object at [l] is left as the name check leaves
    it, and the new dictionary is the default updated with it *)
Lemma prepare_field_run id x_name i l d w :
  descriptor (PDict d) -> store w !! l = Some (PDict d) ->
  prepare_field id x_name i l d w
  = (Ret (dict_update (default_field id x_name i) (with_prefix d)),
     World (server w) (trace w) (uid w) (<[l := PDict (with_prefix d)]> (store w))).
Proof.
  intros (d' & [= <-] & _ & Hname) Hl.
  assert (Same : World (server w) (trace w) (uid w) (<[l := PDict d]> (store w)) = w)
    by (rewrite (list_insert_id _ _ _ Hl); apply same_world).
  unfold prepare_field, with_prefix.
  destruct Hname as [Hn|(n & Hn)]; rewrite Hn.
  - cbv [bind ret]. rewrite Same. reflexivity.
  - destruct (negb (re_match_x n)); cbv [bind ret save]; [reflexivity|].
    rewrite Same. reflexivity.
Qed.

(** The loop over a prefix [pre] of descriptors goes through it without
    a call: it leaves a store [s'] and the new dictionaries [tmps], one
    for each place, the same whatever follows [pre].  The store changes
    only at the locations of [pre]; the dictionary for place [j] is the
    default for index [i + j] updated with the object of that place as
    the loop found it, after the name check; the object as found is the
    caller's, with the name checks of earlier places of the same object
    applied. *)
Lemma field_loop_prefix self model db id x_name pre : forall i done w,
  descriptors (store w) pre ->
  exists s' tmps,
    (forall rest,
        field_loop self model db id x_name i (pre ++ rest) done w
        = field_loop self model db id x_name (i + length pre) rest (done ++ tmps)
                     (World (server w) (trace w) (uid w) s')) /\
    length tmps = length pre /\
    (forall l, l ∉ pre -> s' !! l = store w !! l) /\
    (forall l d0, store w !! l = Some (PDict d0) ->
                  exists d, s' !! l = Some (PDict d) /\ renamed d0 d) /\
    (forall j l d0,
        pre !! j = Some l -> store w !! l = Some (PDict d0) ->
        exists d, renamed d0 d /\ (l ∉ take j pre -> d = d0) /\
                  tmps !! j
                  = Some (PDict (dict_update (default_field id x_name (i + j))
                                             (with_prefix d)))).
Proof.
  induction pre as [|l pre IH]; intros i done w Hpre.
  - exists (store w), []. split; [|split; [|split; [|split]]].
    + intros rest. simpl. rewrite Nat.add_0_r, app_nil_r, same_world. reflexivity.
    + reflexivity.
    + reflexivity.
    + intros l d0 H. exists d0. split; [exact H|constructor].
    + intros j l d0 H. discriminate H.
  - apply Forall_cons in Hpre as [(v & Hl & Hv) Hpre].
    destruct Hv as (d0 & -> & Hd0). assert (Hdesc : descriptor (PDict d0)) by (exists d0; auto).
    set (s1 := <[l := PDict (with_prefix d0)]> (store w)).
    set (w1 := World (server w) (trace w) (uid w) s1).
    set (tmp := dict_update (default_field id x_name i) (with_prefix d0)).
    assert (Hl1 : s1 !! l = Some (PDict (with_prefix d0))).
    { apply list_lookup_insert_eq. eapply lookup_lt_Some, Hl. }
    assert (Hstep : forall l' d', store w !! l' = Some (PDict d') ->
                      exists d1, s1 !! l' = Some (PDict d1) /\ renamed d' d1 /\
                                 (l' <> l -> d1 = d')).
    { intros l' d' H'. destruct (decide (l' = l)) as [->|Hne].
      - rewrite Hl in H'. injection H' as <-. exists (with_prefix d0).
        split; [exact Hl1|]. split; [repeat constructor|]. congruence.
      - exists d'. unfold s1. rewrite list_lookup_insert_ne by congruence.
        split; [exact H'|]. split; [constructor|reflexivity]. }
    assert (Hpre1 : descriptors (store w1) pre).
    { eapply Forall_impl; [exact Hpre|]. simpl.
      intros l' (v' & H' & (d' & -> & Hd')).
      destruct (Hstep l' d' H') as (d1 & H1 & R1 & _).
      exists (PDict d1). split; [exact H1|].
      eapply renamed_descriptor; [exact R1|]. exists d'. auto. }
    destruct (IH (S i) (done ++ [PDict tmp]) w1 Hpre1)
      as (s' & tmps & Heq & Hlen & Hframe & Hall & Hidx).
    exists s', (PDict tmp :: tmps). split; [|split; [|split; [|split]]].
    + intros rest. simpl. unfold bind at 1, load. rewrite Hl. simpl.
      unfold bind at 1. rewrite (prepare_field_run _ _ _ _ _ _ Hdesc Hl).
      fold s1 w1 tmp. rewrite (Heq rest). simpl.
      rewrite <- app_assoc, Nat.add_succ_r. reflexivity.
    + simpl. rewrite Hlen. reflexivity.
    + intros l' Hnot. apply not_elem_of_cons in Hnot as [Hne Hnot].
      rewrite (Hframe l' Hnot). simpl. unfold s1.
      apply list_lookup_insert_ne. congruence.
    + intros l' d' H'. destruct (Hstep l' d' H') as (d1 & H1 & R1 & _).
      destruct (Hall l' d1 H1) as (d & Hd & Rd).
      exists d. split; [exact Hd|]. eapply renamed_trans; eassumption.
    + intros [|j] l' d' Hj H'.
      * injection Hj as <-. rewrite Hl in H'. injection H' as <-.
        exists d0. split; [constructor|]. split; [reflexivity|].
        simpl. rewrite Nat.add_0_r. reflexivity.
      * simpl in Hj. destruct (Hstep l' d' H') as (d1 & H1 & R1 & E1).
        destruct (Hidx j l' d1 Hj H1) as (d & Rd & Ed & Ht).
        exists d. split; [eapply renamed_trans; eassumption|]. split.
        -- simpl. intros Hnot. apply not_elem_of_cons in Hnot as [Hne Hnot].
           rewrite (Ed Hnot). apply E1, Hne.
        -- simpl. rewrite Nat.add_succ_r. exact Ht.
Qed.

(** ** create_model *)

(** with a model name, access granted and the model created under a true
    id, [create_model] on a non-empty list is at its loop *)
Lemma create_model_reaches_loop self name locs w c w1 id :
  str_truthy (Some name) = true ->
  _check_model_access self "ir.model" ["read"; "create"; "unlink"] w = (Ret c, w1) ->
  cur_error c = None ->
  server w1 (trace w1) (create_request self c (uid w1) name) = Ok id ->
  truthy id = true ->
  locs <> [] ->
  create_model self (Some name) (ListOf locs) w
  = (let! looped := field_loop self (Some (object_url self)) (cur_db c) id
                               (technical_name name) 0 locs [] in
     match looped with
     | Break early => ret early
     | Continue fields =>
         try (let! _ := execute_kw self (Some (object_url self)) (cur_db c)
                                   "ir.model.fields" "create" fields None in
              ret (Envelope None "id" id))
             (fun err =>
                let! _ := execute_kw self (Some (object_url self)) (cur_db c)
                                     "ir.model" "unlink" [id] None in
                ret (Envelope (Some (repr err)) "id" PNone))
     end) (log w1 (create_request self c (uid w1) name) (Ok id)).
Proof.
  intros Hn E Hc Ha Hid Hlocs.
  destruct (access_granted _ _ _ _ _ _ _ E Hc) as (Md & _).
  unfold create_model. rewrite Hn. unfold bind at 1. rewrite E, Hc. simpl.
  rewrite Md. unfold bind at 1, try at 1, execute_kw at 1, bind at 1, bind at 1.
  unfold get_uid at 1, rpc at 1. unfold create_request in Ha. rewrite Ha. simpl.
  unfold ret at 1. rewrite Hid. simpl.
  destruct locs; [contradiction|reflexivity].
Qed.

(** the loop at an object that is not a mapping, after a prefix of
    descriptors: the store [s'] left by the prefix does not depend on what
    follows, and neither does the outcome *)
Lemma create_model_stops self name pre l w c w1 id v :
  str_truthy (Some name) = true ->
  _check_model_access self "ir.model" ["read"; "create"; "unlink"] w = (Ret c, w1) ->
  cur_error c = None ->
  server w1 (trace w1) (create_request self c (uid w1) name) = Ok id ->
  truthy id = true ->
  descriptors (store w) pre ->
  is_dict (default PNone (store w !! l)) = false ->
  server w1 (trace w1 ++ [(create_request self c (uid w1) name, Ok id)])
         (unlink_request self c (uid w1) id) = Ok v ->
  exists s',
    (forall l', l' ∉ pre -> s' !! l' = store w !! l') /\
    forall post,
      create_model self (Some name) (ListOf (pre ++ l :: post)) w
      = (Ret (Envelope (Some FormatError) "id" PNone),
         World (server w1)
               (trace w1 ++ [(create_request self c (uid w1) name, Ok id);
                             (unlink_request self c (uid w1) id, Ok v)])
               (uid w1) s').
Proof.
  intros Hn E Hc Ha Hid Hpre Hl Hu.
  destruct (access_granted _ _ _ _ _ _ _ E Hc) as (_ & St & _).
  set (w2 := log w1 (create_request self c (uid w1) name) (Ok id)).
  assert (Hpre2 : descriptors (store w2) pre) by (simpl; rewrite St; exact Hpre).
  destruct (field_loop_prefix self (Some (object_url self)) (cur_db c) id
              (technical_name name) pre 0 [] w2 Hpre2)
    as (s' & tmps & Heq & _ & Hframe & _ & _).
  simpl in Hframe. rewrite St in Hframe.
  assert (Hnot : l ∉ pre).
  { intros Hin. unfold descriptors in Hpre. rewrite Forall_forall in Hpre.
    destruct (Hpre l Hin) as (v' & Hv' & (d & -> & _)). rewrite Hv' in Hl. discriminate. }
  exists s'. split; [exact Hframe|]. intros post.
  rewrite (create_model_reaches_loop _ _ _ _ _ _ _ Hn E Hc Ha Hid)
    by (destruct pre; discriminate).
  fold w2. unfold bind at 1. rewrite (Heq (l :: post)).
  cbn [field_loop]. unfold bind at 1, load. cbn [store].
  rewrite (Hframe l Hnot).
  assert (Hcall :
    (let! _ := execute_kw self (Some (object_url self)) (cur_db c) "ir.model" "unlink"
                          [id] None in
     ret (Break (B := envelope) (C := list pyval)
                (Envelope (Some FormatError) "id" PNone)))
      (World (server w2) (trace w2) (uid w2) s')
    = (Ret (Break (Envelope (Some FormatError) "id" PNone)),
       World (server w1)
             (trace w1 ++ [(create_request self c (uid w1) name, Ok id);
                           (unlink_request self c (uid w1) id, Ok v)])
             (uid w1) s')).
  { unfold execute_kw, bind, get_uid, rpc. cbn [server trace uid store w2 log].
    unfold unlink_request in Hu. rewrite Hu. cbn [delivered]. unfold ret, log.
    cbn [server trace uid store]. rewrite <- app_assoc. reflexivity. }
  destruct (default PNone (store w !! l)); try discriminate Hl;
    rewrite Hcall; reflexivity.
Qed.

Lemma access_never_creates_fields evs :
  all access_event evs -> all no_field_creation evs.
Proof.
  apply all_weaken. intros [[] a]; simpl; try reflexivity.
  unfold access_event, no_field_creation, creates_fields. simpl.
  intros H. apply String.eqb_eq in H. subst method.
  rewrite andb_false_r. reflexivity.
Qed.

(** C1: a model name is given, access is granted and the model is
    created under a true id; the object at index [k] of the field list is
    not a mapping, the objects before it are descriptors, and the
    compensating [unlink] returns.  Then [create_model] returns the format
    error with a null id; after the access check its calls are the
    creation of the model and the [unlink] of its id, in this order; no
    call creates fields; the store is untouched outside the places before
    [k]; and any list that agrees with the given one up to index [k] gives
    the same outcome and state: nothing after index [k] is looked at. *)
Theorem create_model_rejects_non_mapping self name locs k l w c w1 id v :
  str_truthy (Some name) = true ->
  _check_model_access self "ir.model" ["read"; "create"; "unlink"] w = (Ret c, w1) ->
  cur_error c = None ->
  server w1 (trace w1) (create_request self c (uid w1) name) = Ok id ->
  truthy id = true ->
  locs !! k = Some l ->
  descriptors (store w) (take k locs) ->
  is_dict (default PNone (store w !! l)) = false ->
  server w1 (trace w1 ++ [(create_request self c (uid w1) name, Ok id)])
         (unlink_request self c (uid w1) id) = Ok v ->
  exists s' evs,
    create_model self (Some name) (ListOf locs) w
    = (Ret (Envelope (Some FormatError) "id" PNone),
       World (server w1)
             (trace w1 ++ [(create_request self c (uid w1) name, Ok id);
                           (unlink_request self c (uid w1) id, Ok v)])
             (uid w1) s') /\
    trace w1 = trace w ++ evs /\
    all no_field_creation
        (evs ++ [(create_request self c (uid w1) name, Ok id);
                 (unlink_request self c (uid w1) id, Ok v)]) /\
    (forall l', l' ∉ take k locs -> s' !! l' = store w !! l') /\
    (forall locs',
        take (S k) locs' = take (S k) locs ->
        create_model self (Some name) (ListOf locs') w
        = create_model self (Some name) (ListOf locs) w).
Proof.
  intros Hn E Hc Ha Hid Hk Hpre Hl Hu.
  destruct (access_granted _ _ _ _ _ _ _ E Hc) as (_ & _ & evs & Ext & Acc & _).
  destruct (create_model_stops _ _ _ _ _ _ _ _ _ Hn E Hc Ha Hid Hpre Hl Hu)
    as (s' & Hframe & Hrun).
  exists s', evs.
  assert (Hlocs : create_model self (Some name) (ListOf locs) w
                  = (Ret (Envelope (Some FormatError) "id" PNone),
                     World (server w1)
                           (trace w1 ++ [(create_request self c (uid w1) name, Ok id);
                                         (unlink_request self c (uid w1) id, Ok v)])
                           (uid w1) s')).
  { rewrite <- (Hrun (drop (S k) locs)). rewrite (take_drop_middle _ _ _ Hk). reflexivity. }
  split; [exact Hlocs|]. split; [apply Ext|]. split; [|split; [exact Hframe|]].
  - apply all_app; [apply access_never_creates_fields, Acc|].
    constructor; [reflexivity|]. constructor; [reflexivity|constructor].
  - intros locs' Htake. rewrite Hlocs.
    assert (Hk' : locs' !! k = Some l).
    { rewrite <- (lookup_take_lt locs' (S k) k) by lia. rewrite Htake.
      rewrite lookup_take_lt by lia. exact Hk. }
    assert (Hpre' : take k locs' = take k locs).
    { rewrite <- (Nat.min_l k (S k)) by lia. rewrite <- !take_take, Htake. reflexivity. }
    rewrite <- (take_drop_middle _ _ _ Hk'), Hpre'. apply Hrun.
Qed.

Lemma create_model_rejects_non_mapping_witness :
  let w := fresh friendly [PDict [("name", PStr "a")]; PInt 5; PDict []] in
  let r := _check_model_access with_db "ir.model" ["read"; "create"; "unlink"] w in
  let c := Cursor None (Some "http://odoo.example.com/xmlrpc/2/object") (PStr "prod") in
  exists s' evs,
    create_model with_db (Some "My Model") (ListOf [0; 1; 2]) w
    = (Ret (Envelope (Some FormatError) "id" PNone),
       World (server (snd r))
             (trace (snd r) ++ [(create_request with_db c (PInt 7) "My Model", Ok (PInt 42));
                                (unlink_request with_db c (PInt 7) (PInt 42),
                                 Ok (PBool true))])
             (PInt 7) s') /\
    trace (snd r) = trace w ++ evs /\
    all no_field_creation
        (evs ++ [(create_request with_db c (PInt 7) "My Model", Ok (PInt 42));
                 (unlink_request with_db c (PInt 7) (PInt 42), Ok (PBool true))]) /\
    (forall l', l' ∉ take 1 [0; 1; 2] -> s' !! l' = store w !! l') /\
    (forall locs',
        take 2 locs' = take 2 [0; 1; 2] ->
        create_model with_db (Some "My Model") (ListOf locs') w
        = create_model with_db (Some "My Model") (ListOf [0; 1; 2]) w).
Proof.
  intros w r c.
  refine (create_model_rejects_non_mapping with_db "My Model" [0; 1; 2] 1 1 w c (snd r)
            (PInt 42) (PBool true) eq_refl eq_refl eq_refl eq_refl eq_refl eq_refl _
            eq_refl eq_refl).
  constructor; [|constructor].
  exists (PDict [("name", PStr "a")]). split; [reflexivity|].
  exists [("name", PStr "a")]. split; [reflexivity|]. split.
  - constructor; [intros H; inversion H|constructor].
  - right. exists "a". reflexivity.
Defined.

Lemma renamed_name a b n0 :
  renamed a b -> dict_get "name" a = Some (PStr n0) ->
  exists n, dict_get "name" b = Some (PStr n).
Proof.
  intros H Hn. induction H; [eauto|].
  destruct IHrenamed as (n & Hb). eexists. apply with_prefix_name, Hb.
Qed.

(** what the default updated with a checked descriptor holds *)
Lemma submitted_descriptor id x_name j d0 d :
  descriptor (PDict d0) -> renamed d0 d ->
  let t := dict_update (default_field id x_name j) (with_prefix d) in
  (dict_get "model_id" d0 = None -> dict_get "model_id" t = Some id) /\
  (dict_get "state" d0 = None -> dict_get "state" t = Some (PStr "manual")) /\
  (forall k v, k <> "name" -> dict_get k d0 = Some v -> dict_get k t = Some v) /\
  (dict_get "name" d0 = None ->
   dict_get "name" t = Some (PStr (x_name ++ "_field_" ++ str_of_nat j)%string)) /\
  (forall n, dict_get "name" d = Some (PStr n) ->
             dict_get "name" t
             = Some (PStr (if re_match_x n then n else ("x_" ++ n)%string))) /\
  (forall n0, dict_get "name" d0 = Some (PStr n0) ->
              exists n, dict_get "name" t = Some (PStr n) /\ x_prefixed n = true).
Proof.
  intros Hd0 Hren t.
  assert (Hnd : NoDup (map fst (with_prefix d))).
  { destruct (with_prefix_descriptor d (renamed_descriptor _ _ Hren Hd0))
      as (d' & [= <-] & Hnd & _). exact Hnd. }
  assert (Hget : forall k, dict_get k t
                           = match dict_get k (with_prefix d) with
                             | Some v => Some v
                             | None => dict_get k (default_field id x_name j)
                             end)
    by (intros k; apply dict_get_update, Hnd).
  assert (Hother : forall k, k <> "name" -> dict_get k (with_prefix d) = dict_get k d0).
  { intros k Hk. rewrite with_prefix_other by exact Hk. apply renamed_other; assumption. }
  assert (Hfound : forall n, dict_get "name" d = Some (PStr n) ->
                     dict_get "name" t
                     = Some (PStr (if re_match_x n then n else ("x_" ++ n)%string))).
  { intros n Hn. rewrite Hget, (with_prefix_name _ _ Hn). reflexivity. }
  repeat split.
  - intros H. rewrite Hget, Hother, H by discriminate. reflexivity.
  - intros H. rewrite Hget, Hother, H by discriminate. reflexivity.
  - intros k v Hk H. rewrite Hget, Hother, H by exact Hk. reflexivity.
  - intros H. pose proof (renamed_no_name _ _ Hren H) as Hn.
    rewrite Hget, (with_prefix_no_name _ Hn), Hn. reflexivity.
  - exact Hfound.
  - intros n0 H. destruct (renamed_name _ _ _ Hren H) as (n & Hn).
    eexists. split; [apply Hfound, Hn|apply checked_name_prefixed].
Qed.

(** ** The descriptors sent by create_model (C6) *)

(** C6, as stated, fails: a descriptor that gives its own [state] and
    [model_id] is submitted with these, not with ['manual'] and the id 42
    of the new model. *)
Lemma caller_state_and_model_id_win :
  let r := create_model with_db (Some "My Model") (ListOf [0])
             (fresh friendly [PDict [("state", PStr "base"); ("model_id", PInt 99)]]) in
  fst r = Ret (Envelope None "id" (PInt 42)) /\
  last_args "create" (trace (snd r))
  = Some [PDict [("model_id", PInt 99); ("state", PStr "base"); ("ttype", PStr "char");
                 ("name", PStr "x_my_model_field_0")]].
Proof. split; vm_compute; reflexivity. Qed.

(** C6, amended: a model name is given, access is granted, the model is
    created under a true id, and the field list is a non-empty list of
    descriptors (mappings whose name, if given, is a string).  Then the
    call that follows the creation of the model is the creation of the
    fields with one dictionary for each place of the list.  The
    dictionary for place [j] is the default [{model_id: id, state:
    'manual', ttype: 'char', name: <technical name>_field_<j>}] updated
    with the caller's mapping as the loop finds it, after the name check:
    [model_id] is the new id and [state] is ['manual'] where the caller's
    mapping has no such key, every attribute of the caller other than the
    name is kept as given, a missing name becomes the default name, and a
    name that does not match the pattern gets [x_] before it, so that
    every name given by the caller starts with [x_].  The mapping as found
    is the caller's own at the first place of the object. *)
Theorem create_model_submits_descriptors self name locs w c w1 id :
  str_truthy (Some name) = true ->
  _check_model_access self "ir.model" ["read"; "create"; "unlink"] w = (Ret c, w1) ->
  cur_error c = None ->
  server w1 (trace w1) (create_request self c (uid w1) name) = Ok id ->
  truthy id = true ->
  locs <> [] ->
  descriptors (store w) locs ->
  exists tmps a evs,
    trace (snd (create_model self (Some name) (ListOf locs) w))
    = trace w1 ++ [(create_request self c (uid w1) name, Ok id);
                   (fields_request self c (uid w1) tmps, a)] ++ evs /\
    length tmps = length locs /\
    forall j l d0,
      locs !! j = Some l -> store w !! l = Some (PDict d0) ->
      exists d t,
        renamed d0 d /\ (l ∉ take j locs -> d = d0) /\
        tmps !! j = Some (PDict t) /\
        t = dict_update (default_field id (technical_name name) j) (with_prefix d) /\
        (dict_get "model_id" d0 = None -> dict_get "model_id" t = Some id) /\
        (dict_get "state" d0 = None -> dict_get "state" t = Some (PStr "manual")) /\
        (forall k v, k <> "name" -> dict_get k d0 = Some v -> dict_get k t = Some v) /\
        (dict_get "name" d0 = None ->
         dict_get "name" t
         = Some (PStr (technical_name name ++ "_field_" ++ str_of_nat j)%string)) /\
        (forall n, dict_get "name" d = Some (PStr n) ->
                   dict_get "name" t
                   = Some (PStr (if re_match_x n then n else ("x_" ++ n)%string))) /\
        (forall n0, dict_get "name" d0 = Some (PStr n0) ->
                    exists n, dict_get "name" t = Some (PStr n) /\ x_prefixed n = true).
Proof.
  intros Hn E Hc Ha Hid Hne Hdesc.
  destruct (access_granted _ _ _ _ _ _ _ E Hc) as (_ & St & _).
  set (w2 := log w1 (create_request self c (uid w1) name) (Ok id)).
  assert (Hdesc2 : descriptors (store w2) locs) by (simpl; rewrite St; exact Hdesc).
  destruct (field_loop_prefix self (Some (object_url self)) (cur_db c) id
              (technical_name name) locs 0 [] w2 Hdesc2)
    as (s' & tmps & Heq & Hlen & _ & _ & Hidx).
  set (w3 := World (server w2) (trace w2) (uid w2) s').
  set (a := server w3 (trace w3) (fields_request self c (uid w1) tmps)).
  assert (Hrun : exists evs,
             trace (snd (create_model self (Some name) (ListOf locs) w))
             = trace w1 ++ [(create_request self c (uid w1) name, Ok id);
                            (fields_request self c (uid w1) tmps, a)] ++ evs).
  { rewrite (create_model_reaches_loop _ _ _ _ _ _ _ Hn E Hc Ha Hid Hne).
    fold w2. unfold bind at 1.
    pose proof (Heq []) as Heq0. rewrite app_nil_r in Heq0. rewrite Heq0.
    cbn [field_loop app]. unfold ret at 1. fold w3.
    unfold try, execute_kw, bind at 1 2, get_uid, rpc.
    cbn [uid w3 w2 log]. fold (fields_request self c (uid w1) tmps). fold w3. fold a.
    destruct a as [v|f] eqn:Ea; cbn [delivered].
    - exists []. unfold ret. cbn [snd trace log w3 w2]. rewrite <- app_assoc. reflexivity.
    - unfold bind, get_uid, rpc.
      set (a2 := server _ _ _). exists [(unlink_request self c (uid w1) id, a2)].
      destruct a2; cbn [delivered]; unfold ret; cbn [snd trace log w3 w2 uid];
        rewrite <- !app_assoc; reflexivity. }
  destruct Hrun as (evs & Hrun). exists tmps, a, evs.
  split; [exact Hrun|]. split; [exact Hlen|].
  intros j l d0 Hj Hl.
  assert (Hl2 : store w2 !! l = Some (PDict d0)) by (simpl; rewrite St; exact Hl).
  destruct (Hidx j l d0 Hj Hl2) as (d & Hren & Hfirst & Ht).
  assert (Hd0 : descriptor (PDict d0)).
  { unfold descriptors in Hdesc. rewrite Forall_forall in Hdesc.
    destruct (Hdesc l (list_elem_of_lookup_2 _ _ _ Hj)) as (v & Hv & Hdv).
    rewrite Hl in Hv. injection Hv as <-. exact Hdv. }
  exists d, (dict_update (default_field id (technical_name name) j) (with_prefix d)).
  split; [exact Hren|]. split; [exact Hfirst|]. split; [exact Ht|].
  split; [reflexivity|]. apply submitted_descriptor; assumption.
Qed.

Lemma create_model_submits_descriptors_witness :
  let self := with_db in
  let name := "My Model" in
  let locs := [0; 1] in
  let w := fresh friendly [PDict [("name", PStr "a"); ("ttype", PStr "integer")];
                           PDict [("help", PStr "h")]] in
  let c := Cursor None (Some "http://odoo.example.com/xmlrpc/2/object") (PStr "prod") in
  let w1 := snd (_check_model_access self "ir.model" ["read"; "create"; "unlink"] w) in
  let id := PInt 42 in
  exists tmps a evs,
    trace (snd (create_model self (Some name) (ListOf locs) w))
    = trace w1 ++ [(create_request self c (uid w1) name, Ok id);
                   (fields_request self c (uid w1) tmps, a)] ++ evs /\
    length tmps = length locs /\
    forall j l d0,
      locs !! j = Some l -> store w !! l = Some (PDict d0) ->
      exists d t,
        renamed d0 d /\ (l ∉ take j locs -> d = d0) /\
        tmps !! j = Some (PDict t) /\
        t = dict_update (default_field id (technical_name name) j) (with_prefix d) /\
        (dict_get "model_id" d0 = None -> dict_get "model_id" t = Some id) /\
        (dict_get "state" d0 = None -> dict_get "state" t = Some (PStr "manual")) /\
        (forall k v, k <> "name" -> dict_get k d0 = Some v -> dict_get k t = Some v) /\
        (dict_get "name" d0 = None ->
         dict_get "name" t
         = Some (PStr (technical_name name ++ "_field_" ++ str_of_nat j)%string)) /\
        (forall n, dict_get "name" d = Some (PStr n) ->
                   dict_get "name" t
                   = Some (PStr (if re_match_x n then n else ("x_" ++ n)%string))) /\
        (forall n0, dict_get "name" d0 = Some (PStr n0) ->
                    exists n, dict_get "name" t = Some (PStr n) /\ x_prefixed n = true).
Proof.
  intros self name locs w c w1 id.
  refine (create_model_submits_descriptors self name locs w c w1 id
            eq_refl eq_refl eq_refl eq_refl eq_refl _ _).
  - discriminate.
  - constructor; [|constructor; [|constructor]].
    + exists (PDict [("name", PStr "a"); ("ttype", PStr "integer")]).
      split; [reflexivity|]. eexists. split; [reflexivity|]. split.
      * constructor; [|constructor; [|constructor]].
        -- intros H. apply list_elem_of_singleton in H. discriminate H.
        -- intros H. inversion H.
      * right. exists "a". reflexivity.
    + exists (PDict [("help", PStr "h")]).
      split; [reflexivity|]. eexists. split; [reflexivity|]. split.
      * constructor; [intros H; inversion H|constructor].
      * left. reflexivity.
Defined.

(** on the friendly server: the two descriptors as submitted, and the
    caller's first mapping with its name updated in place *)
Lemma create_model_example :
  let r := create_model with_db (Some "My Model") (ListOf [0; 1])
             (fresh friendly [PDict [("name", PStr "a"); ("ttype", PStr "integer")];
                              PDict [("help", PStr "h")]]) in
  last_args "create" (trace (snd r))
  = Some [PDict [("model_id", PInt 42); ("state", PStr "manual");
                 ("ttype", PStr "integer"); ("name", PStr "x_a")];
          PDict [("model_id", PInt 42); ("state", PStr "manual"); ("ttype", PStr "char");
                 ("name", PStr "x_my_model_field_1"); ("help", PStr "h")]] /\
  store (snd r) = [PDict [("name", PStr "x_a"); ("ttype", PStr "integer")];
                   PDict [("help", PStr "h")]].
Proof. split; vm_compute; reflexivity. Qed.

(** * Further properties *)

(** ** The guards that open every method *)

(** no dot is left in the part of a name before its first dot: the
    [replace] that follows the [split] changes nothing *)
Lemma replace_after_split s :
  replace_char "." "_" (split_head "." s) = split_head "." s.
Proof.
  unfold replace_char. induction s as [|c s IH]; simpl; [reflexivity|].
  destruct (Ascii.eqb c ".") eqn:E; simpl; [reflexivity|].
  rewrite E, IH. reflexivity.
Qed.

(** X1: Without a model name ([None] or the empty string) every public
    method returns the error that the name is required, with the null or
    zero result, and does nothing else: no call, no change of state. *)
Theorem nameless_call_is_refused self c w :
  str_truthy (name_of c) = false ->
  perform self c w = (Ret (failure c (Some ModelNameRequired)), w).
Proof.
  intros H.
  destruct c as [n ? ? ?|n ? ? ? ?|n ?|n ?|n ?|n ? ?|n ?|n ?]; simpl in H;
    (destruct n as [name|];
     cbv [perform get_ids get_records get_count get_fields create_record update_record
                  delete_record create_model]; rewrite ?H; reflexivity).
Qed.

Lemma nameless_call_is_refused_witness :
  perform with_db (DeleteRecord (Some "") (PList [PInt 1])) (fresh friendly [])
  = (Ret (Envelope (Some ModelNameRequired) "count" (PInt 0)), fresh friendly []).
Proof.
  exact (nameless_call_is_refused with_db (DeleteRecord (Some "") (PList [PInt 1]))
                                  (fresh friendly []) eq_refl).
Defined.

Lemma perform_on_check_error self c name w cur w1 :
  name_of c = Some name ->
  str_truthy (Some name) = true ->
  _check_model_access self (checked_model c name) (scope_of c) w = (Ret cur, w1) ->
  str_truthy (cur_error cur) = true ->
  perform self c w = (Ret (failure c (cur_error cur)), w1).
Proof.
  intros Hname Hn E Ht.
  destruct c as [n ? ? ?|n ? ? ? ?|n ?|n ?|n ?|n ? ?|n ?|n ?];
    cbn [name_of checked_model scope_of] in *; subst n;
    cbv [perform get_ids get_records get_count get_fields create_record update_record
                 delete_record create_model];
    rewrite Hn; unfold bind; rewrite E, Ht; reflexivity.
Qed.

(** X2: An error of the access check is returned as it is, with the null or
    zero result, and the method makes no call after the check. *)
Theorem access_error_is_passed_on self c name w cur w1 :
  name_of c = Some name ->
  str_truthy (Some name) = true ->
  _check_model_access self (checked_model c name) (scope_of c) w = (Ret cur, w1) ->
  str_truthy (cur_error cur) = true ->
  perform self c w = (Ret (failure c (cur_error cur)), w1).
Proof. exact (perform_on_check_error self c name w cur w1). Qed.

Lemma access_error_is_passed_on_witness :
  let w := fresh locked [] in
  perform with_db (GetIds (Some "res.partner") (PList []) (PInt 0) (PInt 0)) w
  = (Ret (Envelope (Some AuthError) "ids" PNone),
     snd (_check_model_access with_db "res.partner" ["read"] w)).
Proof.
  exact (access_error_is_passed_on with_db
           (GetIds (Some "res.partner") (PList []) (PInt 0) (PInt 0)) "res.partner"
           (fresh locked []) (Cursor (Some AuthError) None PNone) _
           eq_refl eq_refl eq_refl eq_refl).
Defined.

(** ** Connection and authentication *)

(** a failed authentication ends the access check before any check of a
    right; an exception of the authentication leaves through it *)
Lemma check_on_auth_error self name scope w auth w1 e :
  _authenticate self w = (Ret auth, w1) -> auth_error auth = Some e ->
  _check_model_access self name scope w = (Ret (Cursor (Some e) None (auth_db auth)), w1).
Proof.
  intros E He. unfold _check_model_access, bind at 1. rewrite E.
  unfold bind. rewrite He. reflexivity.
Qed.

Lemma check_on_auth_raise self name scope w e w1 :
  _authenticate self w = (Raise e, w1) ->
  _check_model_access self name scope w = (Raise e, w1).
Proof. intros E. unfold _check_model_access, bind at 1. rewrite E. reflexivity. Qed.

Lemma perform_on_check_raise self c name w e w1 :
  name_of c = Some name -> str_truthy (Some name) = true ->
  _check_model_access self (checked_model c name) (scope_of c) w = (Raise e, w1) ->
  perform self c w = (Raise e, w1).
Proof.
  intros Hname Hn E.
  destruct c as [n ? ? ?|n ? ? ? ?|n ?|n ?|n ?|n ? ?|n ?|n ?];
    cbn [name_of checked_model scope_of] in *; subst n;
    cbv [perform get_ids get_records get_count get_fields create_record update_record
                 delete_record create_model];
    rewrite Hn; unfold bind; rewrite E; reflexivity.
Qed.

Lemma authenticate_unreachable self w f :
  server w (trace w) (Version (common_url self)) = Fault f ->
  _authenticate self w
  = (Ret (AuthResult (Some ConnectionError) PNone),
     log w (Version (common_url self)) (Fault f)).
Proof.
  intros Hv. unfold _authenticate, _create_connection.
  unfold bind at 1, try at 1, bind at 1, rpc at 1. rewrite Hv. reflexivity.
Qed.

(** X3: When the version call faults, every public method that was given a
    model name returns the connection error with the null or zero result;
    the version call is the only call made: no authentication is tried. *)
Theorem unreachable_server self c name w f :
  name_of c = Some name -> str_truthy (Some name) = true ->
  server w (trace w) (Version (common_url self)) = Fault f ->
  perform self c w
  = (Ret (failure c (Some ConnectionError)), log w (Version (common_url self)) (Fault f)).
Proof.
  intros Hname Hn Hv.
  apply (perform_on_check_error self c name w
           (Cursor (Some ConnectionError) None PNone) _ Hname Hn); [|reflexivity].
  exact (check_on_auth_error self _ _ w _ _ _ (authenticate_unreachable self w f Hv)
                             eq_refl).
Qed.

Lemma unreachable_server_witness :
  let w := fresh unreachable [] in
  perform with_db (GetCount (Some "res.partner") (PList [])) w
  = (Ret (Envelope (Some ConnectionError) "count" PNone),
     log w (Version "http://odoo.example.com/xmlrpc/2/common")
         (Fault "ConnectionRefusedError(111, 'Connection refused')")).
Proof.
  exact (unreachable_server with_db (GetCount (Some "res.partner") (PList []))
           "res.partner" (fresh unreachable []) _ eq_refl eq_refl eq_refl).
Defined.

(** X4: With a database configured and the server reached, authentication is
    one attempt against that database and nothing else (the databases are
    not listed).  If the attempt returns, its value is stored as
    [self.uid], whatever it is, and the database is reported with no
    error; if it faults, the authentication error is reported with no
    database and [self.uid] is left as it was. *)
Theorem authenticate_configured self name w ver :
  db self = Some name -> str_truthy (Some name) = true ->
  server w (trace w) (Version (common_url self)) = Ok ver ->
  let w1 := log w (Version (common_url self)) (Ok ver) in
  let attempt := Authenticate (common_url self) (PStr name) (username self)
                              (password self) in
  _authenticate self w
  = match server w1 (trace w1) attempt with
    | Ok u => (Ret (AuthResult None (PStr name)), signed_in w1 attempt u)
    | Fault f => (Ret (AuthResult (Some AuthError) PNone), log w1 attempt (Fault f))
    end.
Proof.
  intros Hdb Hn Hv w1 attempt. unfold _authenticate, _create_connection.
  unfold bind at 1, try at 1, bind at 1, rpc at 1. rewrite Hv.
  cbn [delivered]. unfold ret at 1. fold w1. cbn [conn_error conn].
  rewrite Hdb, Hn. unfold bind at 1, try at 1, bind at 1, login, bind at 1, rpc, set_uid.
  fold attempt. destruct (server w1 (trace w1) attempt); reflexivity.
Qed.

Lemma authenticate_configured_witness :
  let w1 := log (fresh locked []) (Version (common_url with_db))
                (Ok (PDict [("server_version", PStr "14.0")])) in
  let attempt := Authenticate (common_url with_db) (PStr "prod") (PStr "admin")
                              (PStr "secret") in
  _authenticate with_db (fresh locked [])
  = match server w1 (trace w1) attempt with
    | Ok u => (Ret (AuthResult None (PStr "prod")), signed_in w1 attempt u)
    | Fault f => (Ret (AuthResult (Some AuthError) PNone), log w1 attempt (Fault f))
    end.
Proof.
  exact (authenticate_configured with_db "prod" (fresh locked [])
           (PDict [("server_version", PStr "14.0")]) eq_refl eq_refl eq_refl).
Defined.

(** X5: With no database configured, a fault of the listing call is not
    caught: it leaves every public method that was given a model name as
    an exception, after the version call and the listing call. *)
Theorem listing_fault_escapes self c name w ver f :
  name_of c = Some name -> str_truthy (Some name) = true ->
  str_truthy (db self) = false ->
  server w (trace w) (Version (common_url self)) = Ok ver ->
  let w1 := log w (Version (common_url self)) (Ok ver) in
  server w1 (trace w1) (ListDb (db_url self)) = Fault f ->
  perform self c w = (Raise (Exn f), log w1 (ListDb (db_url self)) (Fault f)).
Proof.
  intros Hname Hn Hdb Hv w1 Hl.
  apply (perform_on_check_raise self c name _ _ _ Hname Hn), check_on_auth_raise.
  unfold _authenticate, _create_connection.
  unfold bind at 1, try at 1, bind at 1, rpc at 1. rewrite Hv.
  cbn [delivered]. unfold ret at 1. fold w1. cbn [conn_error conn].
  assert (Any : forall e cdb,
             auth_any_db self (Some (common_url self)) e cdb w1
             = (Raise (Exn f), log w1 (ListDb (db_url self)) (Fault f))).
  { intros e cdb. unfold auth_any_db, _get_db_name, bind, rpc. rewrite Hl. reflexivity. }
  destruct (db self) as [d|]; [rewrite Hdb|]; unfold bind; rewrite Any; reflexivity.
Qed.

Lemma listing_fault_escapes_witness :
  let w := fresh listing_faults [] in
  let w1 := log w (Version (common_url without_db))
                (Ok (PDict [("server_version", PStr "14.0")])) in
  perform without_db (GetFields (Some "res.partner") (PList [PStr "string"])) w
  = (Raise (Exn "Fault(3, 'Access Denied')"),
     log w1 (ListDb (db_url without_db)) (Fault "Fault(3, 'Access Denied')")).
Proof.
  exact (listing_fault_escapes without_db
           (GetFields (Some "res.partner") (PList [PStr "string"])) "res.partner"
           (fresh listing_faults []) _ _ eq_refl eq_refl eq_refl eq_refl eq_refl).
Defined.

(** ** The access check *)

Lemma rights_checked_app evs1 evs2 :
  rights_checked (evs1 ++ evs2) = rights_checked evs1 ++ rights_checked evs2.
Proof. unfold rights_checked. apply flat_map_app. Qed.

(** over rights that the server grants the loop makes one check for each,
    in order, and goes on with the error it had and the proxy set *)
Lemma access_loop_granted_prefix self db name pre : forall rest err model w,
  (forall r, r ∈ pre -> answers w (check_request self db (uid w) name r) true) ->
  exists w' evs,
    access_loop self (object_url self) db name (pre ++ rest) err model w
    = access_loop self (object_url self) db name rest err
                  (match pre with [] => model | _ => Some (object_url self) end) w' /\
    server w' = server w /\ uid w' = uid w /\ store w' = store w /\
    trace w' = trace w ++ evs /\
    map fst (rights_checked evs) = map PStr pre.
Proof.
  induction pre as [|r pre IH]; intros rest err model w Hg.
  - exists w, []. rewrite app_nil_r. auto 10.
  - destruct (Hg r (list_elem_of_here _ _) (trace w)) as (v & Ha & Hv).
    set (w1 := log w (check_request self db (uid w) name r) (Ok v)).
    destruct (IH rest err (Some (object_url self)) w1) as (w' & evs & Heq & S & U & St & T & R).
    { intros r' Hin. apply (Hg r'). apply list_elem_of_further, Hin. }
    exists w', ((check_request self db (uid w) name r, Ok v) :: evs).
    split; [|split; [exact S|split; [exact U|split; [exact St|split]]]].
    + cbn [app access_loop]. unfold bind at 1, try at 1, bind at 1, get_uid at 1.
      unfold bind at 1, rpc at 1. fold (check_request self db (uid w) name r).
      rewrite Ha. cbn [delivered]. rewrite Hv. cbn [negb]. unfold ret at 1 2.
      fold w1. rewrite Heq. destruct pre; reflexivity.
    + rewrite T. cbn [w1 log trace]. rewrite <- app_assoc. reflexivity.
    + cbn [rights_checked flat_map check_request map fst app]. fold (rights_checked evs).
      rewrite R. reflexivity.
Qed.

(** X6: When authentication succeeded and the server grants every right
    asked for, the access check makes one check for each right, in the
    order given, under the database of the authentication and the stored
    session id, and returns the proxy with no error. *)
Theorem access_check_grants self name scope w auth w1 :
  _authenticate self w = (Ret auth, w1) -> auth_error auth = None ->
  (forall r, r ∈ scope ->
             answers w1 (check_request self (auth_db auth) (uid w1) name r) true) ->
  exists w2 evs,
    _check_model_access self name scope w
    = (Ret (Cursor None (match scope with [] => None | _ => Some (object_url self) end)
                   (auth_db auth)), w2) /\
    trace w2 = trace w1 ++ evs /\ uid w2 = uid w1 /\
    map fst (rights_checked evs) = map PStr scope.
Proof.
  intros E He Hg.
  destruct (access_loop_granted_prefix self (auth_db auth) name scope [] None None w1 Hg)
    as (w2 & evs & Heq & _ & U & _ & T & R).
  exists w2, evs. split; [|auto].
  unfold _check_model_access, bind at 1. rewrite E. unfold bind at 1. rewrite He.
  rewrite app_nil_r in Heq. rewrite Heq. reflexivity.
Qed.

Lemma access_check_grants_witness :
  let w := fresh friendly [] in
  let w1 := snd (_authenticate with_db w) in
  exists w2 evs,
    _check_model_access with_db "res.partner" ["read"; "write"] w
    = (Ret (Cursor None (Some (object_url with_db)) (PStr "prod")), w2) /\
    trace w2 = trace w1 ++ evs /\ uid w2 = uid w1 /\
    map fst (rights_checked evs) = map PStr ["read"; "write"].
Proof.
  refine (access_check_grants with_db "res.partner" ["read"; "write"] (fresh friendly [])
            (AuthResult None (PStr "prod")) _ eq_refl eq_refl _).
  intros r _ history. exists (PBool true). split; reflexivity.
Defined.

(** X7: When authentication succeeded, the server grants the rights [pre] and
    answers the check of the next right [r] by a false value, the access
    check returns the error that names [r]; the rights after [r] are not
    checked.  (The proxy is returned with the error once a right before
    [r] was granted.) *)
Theorem access_check_denies self name pre r post w auth w1 :
  _authenticate self w = (Ret auth, w1) -> auth_error auth = None ->
  (forall r', r' ∈ pre ->
              answers w1 (check_request self (auth_db auth) (uid w1) name r') true) ->
  answers w1 (check_request self (auth_db auth) (uid w1) name r) false ->
  exists w2 evs,
    _check_model_access self name (pre ++ r :: post) w
    = (Ret (Cursor (Some (AccessDenied r))
                   (match pre with [] => None | _ => Some (object_url self) end)
                   (auth_db auth)), w2) /\
    trace w2 = trace w1 ++ evs /\
    map fst (rights_checked evs) = map PStr (pre ++ [r]).
Proof.
  intros E He Hg Hd.
  destruct (access_loop_granted_prefix self (auth_db auth) name pre (r :: post) None None
              w1 Hg) as (w2 & evs & Heq & S & U & _ & T & R).
  destruct (Hd (trace w2)) as (v & Ha & Hv). rewrite <- S, <- U in Ha.
  eexists _, (evs ++ [(check_request self (auth_db auth) (uid w2) name r, Ok v)]).
  split; [|split].
  - unfold _check_model_access, bind at 1. rewrite E. unfold bind at 1. rewrite He.
    rewrite Heq.
    rewrite (access_loop_stops_on_denial self _ _ _ r post None _ w2 v Ha Hv).
    reflexivity.
  - cbn [log trace]. rewrite T, <- app_assoc. reflexivity.
  - rewrite rights_checked_app, !map_app, R. reflexivity.
Qed.

Lemma access_check_denies_witness :
  let w := fresh read_only [] in
  let w1 := snd (_authenticate with_db w) in
  exists w2 evs,
    _check_model_access with_db "res.partner" (["read"] ++ "create" :: ["unlink"]) w
    = (Ret (Cursor (Some (AccessDenied "create")) (Some (object_url with_db))
                   (PStr "prod")), w2) /\
    trace w2 = trace w1 ++ evs /\
    map fst (rights_checked evs) = map PStr (["read"] ++ ["create"]).
Proof.
  refine (access_check_denies with_db "res.partner" ["read"] "create" ["unlink"]
            (fresh read_only []) (AuthResult None (PStr "prod")) _ eq_refl eq_refl _ _).
  - intros r' Hin history. apply list_elem_of_singleton in Hin. subst r'.
    exists (PBool true). split; reflexivity.
  - intros history. exists (PBool false). split; reflexivity.
Defined.

(** ** The data methods *)

(** the method's own call, made through the proxy of a granted check *)
Lemma own_call_run self cur name method args kwargs (k : pyval -> envelope)
      (h : string -> envelope) w1 :
  cur_model cur = Some (object_url self) ->
  try (let! v := execute_kw self (cur_model cur) (cur_db cur) name method args kwargs in
       ret (k v))
      (fun err => ret (h (repr err))) w1
  = (Ret (match server w1 (trace w1)
                       (object_request self cur (uid w1) name (method, args, kwargs)) with
          | Ok v => k v
          | Fault f => h f
          end),
     log w1 (object_request self cur (uid w1) name (method, args, kwargs))
         (server w1 (trace w1)
                 (object_request self cur (uid w1) name (method, args, kwargs)))).
Proof.
  intros Md. rewrite Md. unfold try, execute_kw, bind, get_uid, rpc, object_request.
  cbn [fst snd]. destruct (server w1 (trace w1) _); reflexivity.
Qed.

(** X8: Once the model name is given and access is granted, a data method
    that has a call of its own makes exactly this one call: its procedure
    on the model, with the arguments of the caller.  If the call returns,
    the result is the success dictionary of the method (the value of the
    server for the reading methods and [create_record], the ids given for
    [update_record], their number for [delete_record]); if it faults, the
    error is the [repr] of the fault with the null or zero result. *)
Theorem data_method_forwards self c name w cur w1 p :
  name_of c = Some name -> str_truthy (Some name) = true ->
  _check_model_access self (checked_model c name) (scope_of c) w = (Ret cur, w1) ->
  cur_error cur = None ->
  own_call c name = Some p ->
  let r := object_request self cur (uid w1) name p in
  perform self c w
  = (Ret (match server w1 (trace w1) r with
          | Ok v => success c v
          | Fault f => failure c (Some f)
          end),
     log w1 r (server w1 (trace w1) r)).
Proof.
  intros Hname Hn E Hc Hp.
  destruct c as [n f o l|n f o l fs|n f|n a|n fs|n ids fs|n ids|n fs];
    cbn [name_of checked_model scope_of] in *; subst n;
    destruct (access_granted _ _ _ _ _ _ _ E Hc) as (Md & _);
    cbv [perform get_ids get_records get_count get_fields create_record update_record
                 delete_record create_model];
    rewrite Hn; unfold bind at 1; rewrite E, Hc; cbn [str_truthy];
    cbn [own_call] in Hp.
  - injection Hp as <-.
    apply (own_call_run self cur name _ _ _
             (fun v => Envelope None "ids" v) (fun e => Envelope (Some e) "ids" PNone)), Md.
  - injection Hp as <-.
    apply (own_call_run self cur name _ _ _
             (fun v => Envelope None "records" v)
             (fun e => Envelope (Some e) "records" PNone)), Md.
  - injection Hp as <-.
    apply (own_call_run self cur name _ _ _
             (fun v => Envelope None "count" v)
             (fun e => Envelope (Some e) "count" PNone)), Md.
  - injection Hp as <-.
    apply (own_call_run self cur name _ _ _
             (fun v => Envelope None "fields" v)
             (fun e => Envelope (Some e) "fields" PNone)), Md.
  - injection Hp as <-. rewrite replace_after_split.
    apply (own_call_run self cur name _ _ _
             (fun v => Envelope None "id" v) (fun e => Envelope (Some e) "id" PNone)), Md.
  - destruct (eq_empty_list ids); [discriminate Hp|].
    destruct (eq_empty_dict fs); [discriminate Hp|]. injection Hp as <-.
    apply (own_call_run self cur name _ _ _
             (fun _ => Envelope None "ids" ids)
             (fun e => Envelope (Some e) "ids" PNone)), Md.
  - destruct (eq_empty_list ids); [discriminate Hp|]. injection Hp as <-.
    set (r := object_request self cur (uid w1) name ("unlink", [ids], None)).
    rewrite Md. unfold try, execute_kw, bind, get_uid, rpc.
    change (ExecuteKw (object_url self) (cur_db cur) (uid w1) (password self) name
                      "unlink" [ids] None) with r.
    destruct (server w1 (trace w1) r); cbn [delivered success failure key_of empty_result].
    + destruct (py_len ids); reflexivity.
    + reflexivity.
  - discriminate Hp.
Qed.

Lemma data_method_forwards_witness :
  let w := fresh failing [] in
  let c := GetRecords (Some "res.partner") (PList []) (PInt 0) (PInt 5)
                      (PList [PStr "nme"]) in
  let cur := Cursor None (Some (object_url with_db)) (PStr "prod") in
  let w1 := snd (_check_model_access with_db "res.partner" ["read"] w) in
  let r := ExecuteKw (object_url with_db) (PStr "prod") (PInt 7) (PStr "secret")
                     "res.partner" "search_read" [PList []]
                     (Some [("offset", PInt 0); ("limit", PInt 5);
                            ("fields", PList [PStr "nme"])]) in
  perform with_db c w
  = (Ret (Envelope (Some "Fault(2, 'Invalid field')") "records" PNone),
     log w1 r (Fault "Fault(2, 'Invalid field')")).
Proof.
  exact (data_method_forwards with_db
           (GetRecords (Some "res.partner") (PList []) (PInt 0) (PInt 5)
                       (PList [PStr "nme"]))
           "res.partner" (fresh failing [])
           (Cursor None (Some (object_url with_db)) (PStr "prod")) _ _
           eq_refl eq_refl eq_refl eq_refl eq_refl).
Defined.

(** ** The technical name of a model *)

Lemma lower_ascii_not_upper c : is_upper (lower_ascii c) = false.
Proof. destruct c as [[] [] [] [] [] [] [] []]; vm_compute; reflexivity. Qed.

Lemma technical_chars_of_name n :
  all_chars technical_char (replace_char " " "_" (lower n)) = true.
Proof.
  unfold replace_char, lower. induction n as [|c n IH]; [reflexivity|].
  cbn [str_map all_chars]. rewrite IH, andb_true_r.
  destruct (Ascii.eqb (lower_ascii c) " ") eqn:E; [reflexivity|].
  unfold technical_char. rewrite E, lower_ascii_not_upper. reflexivity.
Qed.

Lemma re_match_x_prefixed s : re_match_x s = true -> x_prefixed s = true.
Proof. intros H. pose proof (checked_name_prefixed s) as P. rewrite H in P. exact P. Qed.

(** X9: The technical name of a model, whatever the name given, starts with
    [x_] and holds neither a space nor an ASCII capital letter. *)
Theorem technical_name_shape n :
  x_prefixed (technical_name n) = true /\
  all_chars technical_char (technical_name n) = true.
Proof.
  unfold technical_name.
  destruct (re_match_x (replace_char " " "_" (lower n))) eqn:E; cbn [negb].
  - split; [apply re_match_x_prefixed, E|apply technical_chars_of_name].
  - split; [reflexivity|]. cbn [String.append all_chars].
    rewrite technical_chars_of_name. reflexivity.
Qed.

(** a name that already is a technical name is kept as it is *)
Lemma technical_name_example :
  technical_name "My Model" = "x_my_model" /\ technical_name "x_my_model" = "x_my_model".
Proof. split; reflexivity. Qed.

Lemma str_map_fixed f s :
  all_chars (fun c => Ascii.eqb (f c) c) s = true -> str_map f s = s.
Proof.
  induction s as [|c s IH]; [reflexivity|]. cbn [all_chars str_map].
  intros H. apply andb_true_iff in H as [Hc Hs].
  apply Ascii.eqb_eq in Hc. rewrite Hc, (IH Hs). reflexivity.
Qed.

Lemma all_chars_impl (P Q : ascii -> bool) s :
  (forall c, P c = true -> Q c = true) -> all_chars P s = true -> all_chars Q s = true.
Proof.
  intros H. induction s as [|c s IH]; [reflexivity|]. cbn [all_chars].
  intros Hs. apply andb_true_iff in Hs as [Hc Hs].
  rewrite (H c Hc), (IH Hs). reflexivity.
Qed.

(** X10: A name of ASCII characters that matches the pattern and holds
    neither a space nor a capital letter is its own technical name. *)
Theorem technical_name_fixed n :
  all_chars is_ascii n = true ->
  re_match_x n = true -> all_chars technical_char n = true -> technical_name n = n.
Proof.
  intros _ Hm Hc. unfold technical_name, lower, replace_char.
  assert (Hl : str_map lower_ascii n = n).
  { apply str_map_fixed. revert Hc. apply all_chars_impl. intros c H.
    unfold technical_char in H. apply andb_true_iff in H as [_ H].
    unfold lower_ascii. unfold is_upper in H. apply negb_true_iff in H. rewrite H.
    apply Ascii.eqb_refl. }
  rewrite Hl.
  assert (Hr : str_map (fun c => if Ascii.eqb c " " then "_"%char else c) n = n).
  { apply str_map_fixed. revert Hc. apply all_chars_impl. intros c H.
    unfold technical_char in H. apply andb_true_iff in H as [H _].
    apply negb_true_iff in H. rewrite H. apply Ascii.eqb_refl. }
  rewrite Hr, Hm. reflexivity.
Qed.

Lemma technical_name_fixed_witness : technical_name "x_my_model" = "x_my_model".
Proof. exact (technical_name_fixed "x_my_model" eq_refl eq_refl eq_refl). Defined.

(** ** The caller's objects *)

Lemma prepare_field_frame id x_name i l0 d w :
  wp (prepare_field id x_name i l0 d) w (fun _ w' =>
    forall l, l <> l0 -> store w' !! l = store w !! l).
Proof.
  unfold prepare_field. apply wp_bind.
  destruct (dict_get "name" d) as [[| | |s| |]|]; try (apply wp_raise; reflexivity);
    try (apply wp_ret; simpl; apply wp_ret; reflexivity).
  destruct (negb (re_match_x s)).
  - apply wp_bind, wp_save. simpl. apply wp_ret. simpl. apply wp_ret.
    intros l Hl. simpl. apply list_lookup_insert_ne. congruence.
  - apply wp_ret. simpl. apply wp_ret. reflexivity.
Qed.

Lemma field_loop_frame self model db id x_name todo : forall i done w,
  wp (field_loop self model db id x_name i todo done) w (fun _ w' =>
    forall l, l ∉ todo -> store w' !! l = store w !! l).
Proof.
  induction todo as [|l0 rest IH]; intros i done w.
  - apply wp_ret. reflexivity.
  - cbn [field_loop]. apply wp_bind, wp_load. cbn beta iota.
    destruct (default PNone (store w !! l0)) as [| | | | |d];
      try (unfold execute_kw; destruct model;
           [ apply wp_bind, wp_bind, wp_get_uid, wp_rpc; intros [v|f] _; simpl;
             [apply wp_ret|]; reflexivity
           | apply wp_bind, wp_raise; reflexivity ]).
    apply wp_bind. eapply wp_mono; [apply prepare_field_frame|].
    intros [tmp|ex] w1 H1; cbn beta iota.
    + eapply wp_mono; [apply IH|]. cbn beta. intros o w' H l Hl.
      apply not_elem_of_cons in Hl as [Hne Hl]. rewrite (H l Hl). apply H1, Hne.
    + intros l Hl. apply not_elem_of_cons in Hl as [Hne Hl]. apply H1, Hne.
Qed.

(** the end of a run that has not touched the store since the check *)
Ltac kept St := intros; simpl; rewrite ?St; reflexivity.

Ltac keep_enter St :=
  apply wp_bind; eapply wp_mono; [apply check_model_access_spec|];
  intros [?|?] ? (? & (St & _) & _); cbn beta iota; [|kept St];
  (destruct (str_truthy (cur_error _)); [apply wp_ret; kept St|]).

Ltac keep_own_call St :=
  unfold execute_kw;
  lazymatch goal with
  | |- context [match ?m with Some _ => _ | None => _ end] => destruct m
  end;
  [ apply wp_try, wp_bind, wp_bind, wp_get_uid, wp_rpc; intros [?|?] _; simpl
  | apply wp_try, wp_bind, wp_raise; simpl ];
  try (apply wp_ret; kept St).

(** X11: No public method touches an object of the caller that is not listed
    in its arguments: only [create_model] writes, and only to the objects
    of its field list. *)
Theorem objects_not_listed_are_kept self c w l :
  l ∉ listed c ->
  store (snd (perform self c w)) !! l = store w !! l.
Proof.
  revert l.
  change (wp (perform self c) w (fun _ w' =>
            forall l, l ∉ listed c -> store w' !! l = store w !! l)).
  destruct c as [n ? ? ?|n ? ? ? ?|n ?|n ?|n ?|n ids fs|n ids|n fs];
    (destruct n as [name|]; [destruct (str_truthy (Some name)) eqn:Hn|]);
    try (cbv [perform get_ids get_records get_count get_fields create_record
                      update_record delete_record create_model];
         rewrite ?Hn; apply wp_ret; reflexivity).
  - cbv [perform get_ids]. rewrite Hn. keep_enter St. keep_own_call St.
  - cbv [perform get_records]. rewrite Hn. keep_enter St. keep_own_call St.
  - cbv [perform get_count]. rewrite Hn. keep_enter St. keep_own_call St.
  - cbv [perform get_fields]. rewrite Hn. keep_enter St. keep_own_call St.
  - cbv [perform create_record]. rewrite Hn. keep_enter St. keep_own_call St.
  - cbv [perform update_record]. rewrite Hn. keep_enter St.
    destruct (eq_empty_list ids); [apply wp_ret; kept St|].
    destruct (eq_empty_dict fs); [apply wp_ret; kept St|]. keep_own_call St.
  - cbv [perform delete_record]. rewrite Hn. keep_enter St.
    destruct (eq_empty_list ids); [apply wp_ret; kept St|]. keep_own_call St.
    destruct (py_len ids); [|apply wp_raise; simpl]; apply wp_ret; kept St.
  - cbv [perform create_model]. rewrite Hn. keep_enter St.
    destruct fs as [v|locs]; [apply wp_ret; kept St|].
    apply wp_bind. unfold execute_kw at 1.
    destruct (cur_model _) as [mod_|] eqn:Hm.
    + apply wp_try, wp_bind, wp_bind, wp_get_uid, wp_rpc. intros [id|f] _; simpl.
      * apply wp_ret. simpl.
        destruct (negb (truthy id)); [apply wp_ret; kept St|].
        destruct locs as [|l0 locs]; [apply wp_ret; kept St|].
        apply wp_bind. eapply wp_mono; [apply field_loop_frame|].
        intros [[early|fields]|ex] w2 H2; cbn beta iota.
        -- apply wp_ret. intros l Hl. rewrite (H2 l Hl). simpl. rewrite St. reflexivity.
        -- unfold execute_kw.
           apply wp_try, wp_bind, wp_bind, wp_get_uid, wp_rpc. intros [v|f] _; simpl.
           ++ apply wp_ret. intros l Hl. simpl. rewrite (H2 l Hl). simpl.
              rewrite St. reflexivity.
           ++ apply wp_bind, wp_bind, wp_get_uid, wp_rpc. intros [v|f'] _; simpl;
                [apply wp_ret|]; intros l Hl; simpl; rewrite (H2 l Hl); simpl;
                rewrite St; reflexivity.
        -- intros l Hl. rewrite (H2 l Hl). simpl. rewrite St. reflexivity.
      * apply wp_ret. simpl. apply wp_ret. kept St.
    + apply wp_try, wp_bind, wp_raise. simpl. apply wp_ret. simpl. apply wp_ret. kept St.
Qed.

Lemma objects_not_listed_are_kept_witness :
  let w := fresh friendly [PDict [("name", PStr "a")]; PDict [("name", PStr "b")]] in
  store (snd (perform with_db (CreateModel (Some "My Model") (ListOf [0])) w)) !! 1
  = store w !! 1.
Proof.
  refine (objects_not_listed_are_kept with_db (CreateModel (Some "My Model") (ListOf [0]))
            (fresh friendly [PDict [("name", PStr "a")]; PDict [("name", PStr "b")]]) 1 _).
  intros H. apply list_elem_of_singleton in H. discriminate H.
Defined.

(** ** create_model: before the loop *)

(** X12: With a model name and access granted, an argument [fields] that is
    not a list is refused with the format error of the list, before any
    call that would create something. *)
Theorem create_model_not_a_list self name v w cur w1 :
  str_truthy (Some name) = true ->
  _check_model_access self "ir.model" ["read"; "create"; "unlink"] w = (Ret cur, w1) ->
  cur_error cur = None ->
  create_model self (Some name) (NotAList v) w
  = (Ret (Envelope (Some FieldsFormatError) "id" PNone), w1).
Proof.
  intros Hn E Hc. unfold create_model. rewrite Hn. unfold bind. rewrite E, Hc. reflexivity.
Qed.

Lemma create_model_not_a_list_witness :
  let w := fresh friendly [] in
  create_model with_db (Some "My Model") (NotAList (PDict [("name", PStr "a")])) w
  = (Ret (Envelope (Some FieldsFormatError) "id" PNone),
     snd (_check_model_access with_db "ir.model" ["read"; "create"; "unlink"] w)).
Proof.
  exact (create_model_not_a_list with_db "My Model" (PDict [("name", PStr "a")])
           (fresh friendly [])
           (Cursor None (Some (object_url with_db)) (PStr "prod")) _
           eq_refl eq_refl eq_refl).
Defined.

(** X13: With a model name and access granted, [create_model] first creates
    the model, in one call.  If that call faults, or returns a false id,
    or if the field list is empty, it is the only call: the result is the
    [repr] of the fault, the error that the model was not created, or the
    new id with no error; nothing is unlinked and no object of the field
    list is looked at. *)
Theorem create_model_stops_after_creation self name locs w cur w1 :
  str_truthy (Some name) = true ->
  _check_model_access self "ir.model" ["read"; "create"; "unlink"] w = (Ret cur, w1) ->
  cur_error cur = None ->
  let create := create_request self cur (uid w1) name in
  let a := server w1 (trace w1) create in
  created a = false \/ locs = [] ->
  create_model self (Some name) (ListOf locs) w
  = (Ret (creation_result a), log w1 create a).
Proof.
  intros Hn E Hc create a Hcase. subst a create. unfold create_request in *.
  destruct (access_granted _ _ _ _ _ _ _ E Hc) as (Md & _).
  unfold create_model. rewrite Hn. unfold bind at 1. rewrite E, Hc. simpl.
  rewrite Md. unfold bind at 1, try at 1, execute_kw at 1, bind at 1, bind at 1.
  unfold get_uid at 1, rpc at 1.
  destruct (server w1 (trace w1) _) as [id|f] eqn:Ea; simpl in *.
  - unfold ret at 1. destruct (truthy id) eqn:Hid; simpl.
    + destruct Hcase as [Hcase| ->]; [discriminate Hcase|]. reflexivity.
    + reflexivity.
  - reflexivity.
Qed.

Lemma create_model_stops_after_creation_witness :
  let w := fresh friendly [] in
  let cur := Cursor None (Some (object_url with_db)) (PStr "prod") in
  let w1 := snd (_check_model_access with_db "ir.model" ["read"; "create"; "unlink"] w) in
  create_model with_db (Some "My Model") (ListOf []) w
  = (Ret (Envelope None "id" (PInt 42)),
     log w1 (create_request with_db cur (PInt 7) "My Model") (Ok (PInt 42))).
Proof.
  exact (create_model_stops_after_creation with_db "My Model" [] (fresh friendly [])
           (Cursor None (Some (object_url with_db)) (PStr "prod")) _
           eq_refl eq_refl eq_refl (or_intror eq_refl)).
Defined.

(** ** create_model: the loop and what follows *)

(** X14: The two-step creation with its compensation.  A model name is given,
    access is granted, the model is created under a true id and the field
    list is a non-empty list of descriptors.  Then the next call is the
    creation of the fields, with one dictionary for each descriptor.  If
    it returns, the result is the id with no error and nothing is
    unlinked.  If it faults, the next call is the [unlink] of the id; once
    that returns, the result is the [repr] of the fault of the field
    creation with a null id (a fault of the [unlink] is not caught). *)
Theorem create_model_transaction self name locs w cur w1 id :
  str_truthy (Some name) = true ->
  _check_model_access self "ir.model" ["read"; "create"; "unlink"] w = (Ret cur, w1) ->
  cur_error cur = None ->
  server w1 (trace w1) (create_request self cur (uid w1) name) = Ok id ->
  truthy id = true ->
  locs <> [] ->
  descriptors (store w) locs ->
  exists tmps s',
    length tmps = length locs /\
    let w2 := log w1 (create_request self cur (uid w1) name) (Ok id) in
    let w3 := World (server w1) (trace w2) (uid w1) s' in
    let submit := fields_request self cur (uid w1) tmps in
    let w4 := log w3 submit (server w1 (trace w2) submit) in
    let undo := unlink_request self cur (uid w1) id in
    create_model self (Some name) (ListOf locs) w
    = match server w1 (trace w2) submit with
      | Ok _ => (Ret (Envelope None "id" id), w4)
      | Fault f =>
          (match server w1 (trace w4) undo with
           | Ok _ => Ret (Envelope (Some f) "id" PNone)
           | Fault f' => Raise (Exn f')
           end,
           log w4 undo (server w1 (trace w4) undo))
      end.
Proof.
  intros Hn E Hc Ha Hid Hne Hdesc.
  destruct (access_granted _ _ _ _ _ _ _ E Hc) as (_ & St & _).
  set (w2 := log w1 (create_request self cur (uid w1) name) (Ok id)).
  assert (Hdesc2 : descriptors (store w2) locs) by (simpl; rewrite St; exact Hdesc).
  destruct (field_loop_prefix self (Some (object_url self)) (cur_db cur) id
              (technical_name name) locs 0 [] w2 Hdesc2)
    as (s' & tmps & Heq & Hlen & _).
  exists tmps, s'. split; [exact Hlen|]. cbv zeta. fold w2.
  rewrite (create_model_reaches_loop _ _ _ _ _ _ _ Hn E Hc Ha Hid Hne).
  fold w2. unfold bind at 1.
  pose proof (Heq []) as Heq0. rewrite app_nil_r in Heq0. rewrite Heq0.
  cbn [field_loop app]. unfold ret at 1.
  unfold try, execute_kw, bind at 1 2, get_uid, rpc.
  cbn [server trace uid w2 log].
  fold (fields_request self cur (uid w1) tmps).
  destruct (server w1 _ (fields_request self cur (uid w1) tmps)) as [v|f];
    cbn [delivered]; [reflexivity|].
  unfold bind, get_uid, rpc. cbn [server trace uid log].
  fold (unlink_request self cur (uid w1) id).
  destruct (server w1 _ (unlink_request self cur (uid w1) id)); reflexivity.
Qed.

Lemma create_model_transaction_witness :
  let self := with_db in
  let name := "My Model" in
  let locs := [0] in
  let w := fresh failing [PDict [("ttype", PStr "nonsense")]] in
  let cur := Cursor None (Some (object_url with_db)) (PStr "prod") in
  let w1 := snd (_check_model_access self "ir.model" ["read"; "create"; "unlink"] w) in
  let id := PInt 42 in
  exists tmps s',
    length tmps = length locs /\
    let w2 := log w1 (create_request self cur (uid w1) name) (Ok id) in
    let w3 := World (server w1) (trace w2) (uid w1) s' in
    let submit := fields_request self cur (uid w1) tmps in
    let w4 := log w3 submit (server w1 (trace w2) submit) in
    let undo := unlink_request self cur (uid w1) id in
    create_model self (Some name) (ListOf locs) w
    = match server w1 (trace w2) submit with
      | Ok _ => (Ret (Envelope None "id" id), w4)
      | Fault f =>
          (match server w1 (trace w4) undo with
           | Ok _ => Ret (Envelope (Some f) "id" PNone)
           | Fault f' => Raise (Exn f')
           end,
           log w4 undo (server w1 (trace w4) undo))
      end.
Proof.
  intros self name locs w cur w1 id.
  refine (create_model_transaction self name locs w cur w1 id
            eq_refl eq_refl eq_refl eq_refl eq_refl _ _).
  - discriminate.
  - constructor; [|constructor].
    exists (PDict [("ttype", PStr "nonsense")]). split; [reflexivity|].
    eexists. split; [reflexivity|]. split.
    + constructor; [intros H; inversion H|constructor].
    + left. reflexivity.
Defined.

(** on the server [failing] the field creation faults, the model is
    unlinked and the fault is the error returned *)
Lemma create_model_compensates :
  let r := create_model with_db (Some "My Model") (ListOf [0])
                        (fresh failing [PDict [("ttype", PStr "nonsense")]]) in
  fst r = Ret (Envelope (Some "Fault(2, 'Invalid field')") "id" PNone) /\
  last_args "unlink" (trace (snd r)) = Some [PInt 42].
Proof. split; vm_compute; reflexivity. Qed.

(** X15: A name that is not a string makes [re.match] raise in the loop, where
    no [try] stands: after descriptors, at the first mapping whose name
    is not a string, the exception leaves [create_model].  The creation
    of the model is then the last call made: the model is not unlinked. *)
Theorem create_model_name_not_a_string self name pre l post d v w cur w1 id :
  str_truthy (Some name) = true ->
  _check_model_access self "ir.model" ["read"; "create"; "unlink"] w = (Ret cur, w1) ->
  cur_error cur = None ->
  server w1 (trace w1) (create_request self cur (uid w1) name) = Ok id ->
  truthy id = true ->
  descriptors (store w) pre ->
  store w !! l = Some (PDict d) -> dict_get "name" d = Some v -> is_str v = false ->
  exists e s',
    create_model self (Some name) (ListOf (pre ++ l :: post)) w
    = (Raise e,
       World (server w1) (trace w1 ++ [(create_request self cur (uid w1) name, Ok id)])
             (uid w1) s').
Proof.
  intros Hn E Hc Ha Hid Hpre Hl Hname Hv.
  destruct (access_granted _ _ _ _ _ _ _ E Hc) as (_ & St & _).
  set (w2 := log w1 (create_request self cur (uid w1) name) (Ok id)).
  assert (Hpre2 : descriptors (store w2) pre) by (simpl; rewrite St; exact Hpre).
  destruct (field_loop_prefix self (Some (object_url self)) (cur_db cur) id
              (technical_name name) pre 0 [] w2 Hpre2)
    as (s' & tmps & Heq & _ & Hframe & _ & _).
  simpl in Hframe. rewrite St in Hframe.
  assert (Hnot : l ∉ pre).
  { intros Hin. unfold descriptors in Hpre. rewrite Forall_forall in Hpre.
    destruct (Hpre l Hin) as (v' & Hv' & (d' & -> & _ & Hn')).
    rewrite Hl in Hv'. injection Hv' as <-. rewrite Hname in Hn'.
    destruct Hn' as [Hn'|(n & Hn')]; [discriminate Hn'|].
    injection Hn' as ->. discriminate Hv. }
  eexists _, s'.
  rewrite (create_model_reaches_loop _ _ _ _ _ _ _ Hn E Hc Ha Hid)
    by (destruct pre; discriminate).
  fold w2. unfold bind at 1. rewrite (Heq (l :: post)).
  cbn [field_loop]. unfold bind at 1, load. cbn [store].
  rewrite (Hframe l Hnot), Hl. cbn [default from_option Datatypes.id].
  unfold bind at 1, prepare_field, bind at 1. rewrite Hname.
  destruct v; try discriminate Hv; reflexivity.
Qed.

Lemma create_model_name_not_a_string_witness :
  let w := fresh friendly [PDict [("name", PInt 5)]] in
  let cur := Cursor None (Some (object_url with_db)) (PStr "prod") in
  let w1 := snd (_check_model_access with_db "ir.model" ["read"; "create"; "unlink"] w) in
  exists e s',
    create_model with_db (Some "My Model") (ListOf ([] ++ 0 :: [])) w
    = (Raise e,
       World (server w1)
             (trace w1 ++ [(create_request with_db cur (uid w1) "My Model", Ok (PInt 42))])
             (uid w1) s').
Proof.
  refine (create_model_name_not_a_string with_db "My Model" [] 0 [] [("name", PInt 5)]
            (PInt 5) (fresh friendly [PDict [("name", PInt 5)]])
            (Cursor None (Some (object_url with_db)) (PStr "prod")) _ (PInt 42)
            eq_refl eq_refl eq_refl eq_refl eq_refl _ eq_refl eq_refl eq_refl).
  constructor.
Defined.

(** ** What the methods never do *)

(** X16: With a database configured, every public method returns a
    dictionary on every server, whatever faults: only [create_model] on a
    non-empty field list, with its calls outside a [try], is left out. *)
Theorem configured_db_always_answers self c w :
  str_truthy (db self) = true -> no_compensation c = true ->
  exists env, fst (perform self c w) = Ret env.
Proof. intros Hdb Hc. exact (configured_db_returns self c w Hdb Hc). Qed.

Lemma configured_db_always_answers_witness :
  exists env,
    fst (perform with_db (DeleteRecord (Some "res.partner") (PList [PInt 1]))
                 (fresh unreachable [])) = Ret env.
Proof.
  exact (configured_db_always_answers with_db
           (DeleteRecord (Some "res.partner") (PList [PInt 1])) (fresh unreachable [])
           eq_refl eq_refl).
Defined.

Lemma access_is_harmless evs : all access_event evs -> all harmless evs.
Proof.
  apply all_weaken. intros ev. unfold access_event, harmless.
  destruct (method_of ev) as [m|]; [|reflexivity]. intros ->. reflexivity.
Qed.

(** the own call of a reading method, for [harmless] *)
Ltac read_only_call Ext Acc :=
  unfold execute_kw;
  lazymatch goal with
  | |- context [match ?m with Some _ => _ | None => _ end] => destruct m
  end;
  [ apply wp_try, wp_bind, wp_bind, wp_get_uid, wp_rpc; intros [?|?] _; simpl
  | apply wp_try, wp_bind, wp_raise; simpl ];
  apply wp_ret; eexists; (split; [ext|]);
  repeat first [ assumption | apply all_nil | apply all_app
               | apply all_one; reflexivity ].

(** X17: The reading methods make no call that changes anything on the
    server: on every server and for every argument, the calls of
    [get_ids], [get_records], [get_count] and [get_fields] are the calls
    that open the session, access checks and their own reading
    procedure. *)
Theorem reading_is_harmless self c w :
  reads c = true ->
  exists evs, trace (snd (perform self c w)) = trace w ++ evs /\ all harmless evs.
Proof.
  intros Hr.
  cut (wp (perform self c) w (fun _ w' =>
         exists evs, extends w evs w' /\ all harmless evs)).
  { intros (evs & Ext & H). exists evs. split; [apply Ext|exact H]. }
  destruct c as [n ? ? ?|n ? ? ? ?|n ?|n ?|n ?|n ? ?|n ?|n ?]; try discriminate Hr;
    (destruct n as [name|]; [destruct (str_truthy (Some name)) eqn:Hn|]);
    try (cbv [perform get_ids get_records get_count get_fields]; rewrite ?Hn;
         apply wp_ret; exists []; split; [ext|apply all_nil]);
    cbv [perform get_ids get_records get_count get_fields]; rewrite Hn;
    (apply wp_bind; eapply wp_mono; [apply check_model_access_spec|]);
    intros [cur|e] w1 (evs1 & (_ & Ext1 & Acc1 & _) & _); cbn beta iota;
    apply access_is_harmless in Acc1;
    try (exists evs1; split; [ext|assumption]);
    (destruct (str_truthy (cur_error cur));
     [apply wp_ret; exists evs1; split; [ext|assumption]|]);
    read_only_call Ext1 Acc1.
Qed.

Lemma reading_is_harmless_witness :
  exists evs,
    trace (snd (perform with_db
                        (GetRecords (Some "res.partner") (PList []) (PInt 0) (PInt 0)
                                    (PList []))
                        (fresh friendly [])))
    = trace (fresh friendly []) ++ evs /\ all harmless evs.
Proof.
  exact (reading_is_harmless with_db
           (GetRecords (Some "res.partner") (PList []) (PInt 0) (PInt 0) (PList []))
           (fresh friendly []) eq_refl).
Defined.

(** ** The location of the server *)

(** X18: The server is looked for at the URL given to the constructor if it
    is a non-empty string, else at the host given if that is one, else at
    [localhost:8069]. *)
Theorem server_location url_ host_ db_ usr pw :
  _get_host (init url_ host_ db_ usr pw)
  = if str_truthy url_ then default EmptyString url_
    else if str_truthy host_ then default EmptyString host_
         else "localhost:8069".
Proof.
  unfold _get_host, init. cbn [url host].
  destruct url_ as [u|]; [destruct (str_truthy (Some u))|];
    try reflexivity; destruct host_ as [h|]; try reflexivity;
    destruct (str_truthy (Some h)); reflexivity.
Qed.

(** ** The caller's descriptors after create_model *)

(** the store after the loop over descriptors: every object of the list
    went through the name check at its last place *)
Lemma field_loop_prefix_objects self model db id x_name pre : forall i done w,
  descriptors (store w) pre ->
  exists s' tmps,
    (forall rest,
        field_loop self model db id x_name i (pre ++ rest) done w
        = field_loop self model db id x_name (i + length pre) rest (done ++ tmps)
                     (World (server w) (trace w) (uid w) s')) /\
    (forall l, l ∉ pre -> s' !! l = store w !! l) /\
    (forall l d0, l ∈ pre -> store w !! l = Some (PDict d0) ->
                  exists d, renamed d0 d /\ s' !! l = Some (PDict (with_prefix d))).
Proof.
  induction pre as [|l pre IH]; intros i done w Hpre.
  - exists (store w), []. split; [|split].
    + intros rest. simpl. rewrite Nat.add_0_r, app_nil_r, same_world. reflexivity.
    + reflexivity.
    + intros l d0 Hin. inversion Hin.
  - apply Forall_cons in Hpre as [(v & Hl & Hv) Hpre].
    destruct Hv as (d0 & -> & Hd0). assert (Hdesc : descriptor (PDict d0)) by (exists d0; auto).
    set (s1 := <[l := PDict (with_prefix d0)]> (store w)).
    set (w1 := World (server w) (trace w) (uid w) s1).
    set (tmp := dict_update (default_field id x_name i) (with_prefix d0)).
    assert (Hl1 : s1 !! l = Some (PDict (with_prefix d0))).
    { apply list_lookup_insert_eq. eapply lookup_lt_Some, Hl. }
    assert (Hstep : forall l' d', store w !! l' = Some (PDict d') ->
                      exists d1, s1 !! l' = Some (PDict d1) /\ renamed d' d1).
    { intros l' d' H'. destruct (decide (l' = l)) as [->|Hne].
      - rewrite Hl in H'. injection H' as <-. exists (with_prefix d0).
        split; [exact Hl1|repeat constructor].
      - exists d'. unfold s1. rewrite list_lookup_insert_ne by congruence.
        split; [exact H'|constructor]. }
    assert (Hpre1 : descriptors (store w1) pre).
    { eapply Forall_impl; [exact Hpre|]. simpl.
      intros l' (v' & H' & (d' & -> & Hd')).
      destruct (Hstep l' d' H') as (d1 & H1 & R1).
      exists (PDict d1). split; [exact H1|].
      eapply renamed_descriptor; [exact R1|]. exists d'. auto. }
    destruct (IH (S i) (done ++ [PDict tmp]) w1 Hpre1) as (s' & tmps & Heq & Hframe & Hobj).
    exists s', (PDict tmp :: tmps). split; [|split].
    + intros rest. simpl. unfold bind at 1, load. rewrite Hl. simpl.
      unfold bind at 1. rewrite (prepare_field_run _ _ _ _ _ _ Hdesc Hl).
      fold s1 w1 tmp. rewrite (Heq rest). simpl.
      rewrite <- app_assoc, Nat.add_succ_r. reflexivity.
    + intros l' Hnot. apply not_elem_of_cons in Hnot as [Hne Hnot].
      rewrite (Hframe l' Hnot). simpl. unfold s1.
      apply list_lookup_insert_ne. congruence.
    + intros l' d' Hin H'. destruct (decide (l' ∈ pre)) as [Hin'|Hnot].
      * destruct (Hstep l' d' H') as (d1 & H1 & R1).
        destruct (Hobj l' d1 Hin' H1) as (d & Rd & Hd).
        exists d. split; [eapply renamed_trans; eassumption|exact Hd].
      * apply elem_of_cons in Hin as [->|Hin]; [|contradiction].
        rewrite Hl in H'. injection H' as <-.
        exists d0. split; [constructor|]. rewrite (Hframe l Hnot). exact Hl1.
Qed.

(** X19: [create_model] changes the caller's descriptors in place, and only in
    their name.  A model name is given, access is granted, the model is
    created under a true id and the field list is a non-empty list of
    descriptors.  Then, whatever the calls that follow answer, each object
    of the list is afterwards a mapping with every attribute other than
    the name as before, no name if it had none, and otherwise a name that
    starts with [x_]. *)
Theorem create_model_renames_in_place self name locs w cur w1 id l d0 :
  str_truthy (Some name) = true ->
  _check_model_access self "ir.model" ["read"; "create"; "unlink"] w = (Ret cur, w1) ->
  cur_error cur = None ->
  server w1 (trace w1) (create_request self cur (uid w1) name) = Ok id ->
  truthy id = true ->
  descriptors (store w) locs ->
  l ∈ locs -> store w !! l = Some (PDict d0) ->
  exists d,
    store (snd (create_model self (Some name) (ListOf locs) w)) !! l = Some (PDict d) /\
    (forall k, k <> "name" -> dict_get k d = dict_get k d0) /\
    (dict_get "name" d0 = None -> dict_get "name" d = None) /\
    (forall n0, dict_get "name" d0 = Some (PStr n0) ->
                exists n, dict_get "name" d = Some (PStr n) /\ x_prefixed n = true).
Proof.
  intros Hn E Hc Ha Hid Hdesc Hin Hl.
  destruct (access_granted _ _ _ _ _ _ _ E Hc) as (_ & St & _).
  set (w2 := log w1 (create_request self cur (uid w1) name) (Ok id)).
  assert (Hdesc2 : descriptors (store w2) locs) by (simpl; rewrite St; exact Hdesc).
  assert (Hl2 : store w2 !! l = Some (PDict d0)) by (simpl; rewrite St; exact Hl).
  destruct (field_loop_prefix_objects self (Some (object_url self)) (cur_db cur) id
              (technical_name name) locs 0 [] w2 Hdesc2)
    as (s' & tmps & Heq & _ & Hobj).
  destruct (Hobj l d0 Hin Hl2) as (d & Hren & Hd).
  assert (Hstore : store (snd (create_model self (Some name) (ListOf locs) w)) = s').
  { rewrite (create_model_reaches_loop _ _ _ _ _ _ _ Hn E Hc Ha Hid)
      by (intros ->; inversion Hin).
    fold w2. unfold bind at 1.
    pose proof (Heq []) as Heq0. rewrite app_nil_r in Heq0. rewrite Heq0.
    cbn [field_loop app]. unfold ret at 1.
    unfold try, execute_kw, bind at 1 2, get_uid, rpc.
    match goal with |- context [delivered ?a] => destruct a end;
      cbn [delivered]; [reflexivity|].
    unfold bind, get_uid, rpc.
    match goal with |- context [delivered ?a] => destruct a end; reflexivity. }
  assert (Hd0 : descriptor (PDict d0)).
  { unfold descriptors in Hdesc. rewrite Forall_forall in Hdesc.
    destruct (Hdesc l Hin) as (v & Hv & Hdv). rewrite Hl in Hv. injection Hv as <-.
    exact Hdv. }
  exists (with_prefix d). rewrite Hstore. split; [exact Hd|]. split; [|split].
  - intros k Hk. rewrite with_prefix_other by exact Hk. apply renamed_other; assumption.
  - intros H0. pose proof (renamed_no_name _ _ Hren H0) as H1.
    rewrite with_prefix_no_name; assumption.
  - intros n0 H0. destruct (renamed_name _ _ _ Hren H0) as (n & H1).
    eexists. split; [apply with_prefix_name, H1|apply checked_name_prefixed].
Qed.

Lemma create_model_renames_in_place_witness :
  let w := fresh friendly [PDict [("name", PStr "a"); ("ttype", PStr "integer")]] in
  exists d,
    store (snd (create_model with_db (Some "My Model") (ListOf [0]) w)) !! 0
    = Some (PDict d) /\
    (forall k, k <> "name" ->
               dict_get k d = dict_get k [("name", PStr "a"); ("ttype", PStr "integer")]) /\
    (dict_get "name" [("name", PStr "a"); ("ttype", PStr "integer")] = None ->
     dict_get "name" d = None) /\
    (forall n0, dict_get "name" [("name", PStr "a"); ("ttype", PStr "integer")]
                = Some (PStr n0) ->
                exists n, dict_get "name" d = Some (PStr n) /\ x_prefixed n = true).
Proof.
  refine (create_model_renames_in_place with_db "My Model" [0]
            (fresh friendly [PDict [("name", PStr "a"); ("ttype", PStr "integer")]])
            (Cursor None (Some (object_url with_db)) (PStr "prod")) _ (PInt 42) 0
            [("name", PStr "a"); ("ttype", PStr "integer")]
            eq_refl eq_refl eq_refl eq_refl eq_refl _ _ eq_refl).
  - constructor; [|constructor].
    exists (PDict [("name", PStr "a"); ("ttype", PStr "integer")]).
    split; [reflexivity|]. eexists. split; [reflexivity|]. split.
    + constructor; [|constructor; [|constructor]].
      * intros H. apply list_elem_of_singleton in H. discriminate H.
      * intros H. inversion H.
    + right. exists "a". reflexivity.
  - apply list_elem_of_here.
Defined.

(** ** The default name of a record *)

(** X20: In the default name of [create_record] the [replace] of dots that
    follows the [split] at the first dot never changes anything: the part
    of a name before its first dot holds no dot. *)
Theorem default_name_replace_is_idle name :
  replace_char "." "_" (split_head "." name) = split_head "." name /\
  all_chars (fun c => negb (Ascii.eqb c ".")) (split_head "." name) = true.
Proof.
  split; [apply replace_after_split|].
  induction name as [|c name IH]; [reflexivity|]. cbn [split_head].
  destruct (Ascii.eqb c ".") eqn:E; [reflexivity|].
  cbn [all_chars]. rewrite E, IH. reflexivity.
Qed.
